(** * PyRat analysis harness ([analysis.py]): a shallow embedding

    The module drives an external maze game: it renders a configuration
    dictionary as a command line, reads the path of a statistics file out of
    the captured output, and sweeps a grid of parameters.

    Python dictionaries keep their insertion order, and the code depends on
    it (command-line order, index order), so a dictionary is an association
    list without repeated keys, updated the way [d[k] = v] does it. *)

From Stdlib Require Import List String Ascii ZArith Lia Bool Arith.
From Stdlib Require Import Numbers.DecimalString.
Import ListNotations.

Open Scope string_scope.
Open Scope list_scope.

(** ** Exceptions and results *)

Inductive exn : Type :=
| AttributeError   (* attribute access on an object that lacks it *)
| ValueError       (* index names that do not fit the frame's index *)
| ExternalError (code : nat).  (* raised by the subprocess or by pandas *)

Inductive result (A : Type) : Type :=
| Ok (a : A)
| Raise (e : exn).
Arguments Ok {A} a.
Arguments Raise {A} e.

Definition bind {A B : Type} (r : result A) (k : A -> result B) : result B :=
  match r with
  | Ok a => k a
  | Raise e => Raise e
  end.

Notation "x <- c1 ;; c2" := (bind c1 (fun x => c2))
  (at level 61, c1 at next level, right associativity).

(** ** Insertion-ordered dictionaries *)

Section Dict.
Context {K V : Type}.
Variable eqb : K -> K -> bool.

(** [d[k] = v]: an existing key keeps its place (and the stored key
    object), a new key goes last. *)
Fixpoint dict_set (k : K) (v : V) (d : list (K * V)) : list (K * V) :=
  match d with
  | [] => [(k, v)]
  | (k', v') :: d' =>
      if eqb k' k then (k', v) :: d' else (k', v') :: dict_set k v d'
  end.

Fixpoint dict_get (k : K) (d : list (K * V)) : option V :=
  match d with
  | [] => None
  | (k', v') :: d' => if eqb k' k then Some v' else dict_get k d'
  end.

(** [dict(items)] and [d.update(items)]: the pairs are stored one by one. *)
Definition dict_update (d items : list (K * V)) : list (K * V) :=
  fold_left (fun acc kv => dict_set (fst kv) (snd kv) acc) items d.

Definition dict_of_items (items : list (K * V)) : list (K * V) :=
  dict_update [] items.
End Dict.

Definition dict (K V : Type) : Type := list (K * V).

Definition keys {K V : Type} (d : dict K V) : list K := map fst d.
Definition values {K V : Type} (d : dict K V) : list V := map snd d.

(** A dictionary has no repeated key. *)
Definition dict_wf {K V : Type} (d : dict K V) : Prop := NoDup (keys d).

(** ** [itertools.product] and [dict_product] *)

(** [itertools.product] applied to the pools, as its documentation defines it:
    [result = [[]]; for pool in pools: result = [x+[y] for x in result for y in pool]]. *)
Definition product {A : Type} (pools : list (list A)) : list (list A) :=
  fold_left
    (fun result pool => flat_map (fun x => map (fun y => x ++ [y]) pool) result)
    pools [[]].

(** The same tuples by recursion on the pools, the first pool varying
    slowest; [product_tuples] below shows the two agree. *)
Fixpoint tuples {A : Type} (pools : list (list A)) : list (list A) :=
  match pools with
  | [] => [[]]
  | pool :: pools' => flat_map (fun y => map (cons y) (tuples pools')) pool
  end.

(** [zip(keys, pms)] is [combine]. *)
Definition dict_product {V : Type} (d : dict string (list V))
  : list (dict string V) :=
  let ks := keys d in
  map (fun pms => dict_of_items String.eqb (combine ks pms)) (product (values d)).

(** The cartesian product as the specification words it: one mapping per
    choice of a value for each key, the first key varying slowest. *)
Fixpoint cartesian {V : Type} (g : dict string (list V)) : list (dict string V) :=
  match g with
  | [] => [[]]
  | (k, vs) :: g' => flat_map (fun v => map (cons (k, v)) (cartesian g')) vs
  end.

Definition list_prod (l : list nat) : nat := fold_right Nat.mul 1 l.

(** ** Python values

    Configuration and grid values are booleans, integers, text and
    [pathlib] paths.  Floating-point values are left out of the embedding. *)

Definition nl : ascii := "010"%char.

(** A [PurePosixPath]: whether it has the root, and its components. *)
Record PurePath : Type := { path_root : bool; path_parts : list string }.

Definition join_parts (parts : list string) : string := String.concat "/" parts.

(** [str(path)] *)
Definition path_str (p : PurePath) : string :=
  if path_root p then ("/" ++ join_parts (path_parts p))%string
  else match path_parts p with
       | [] => "."
       | _ => join_parts (path_parts p)
       end.

(** [path.name]: the last component, empty when there is none. *)
Definition path_name (p : PurePath) : string := last (path_parts p) EmptyString.

(** [name.rfind('.')], [-1] when there is no dot. *)
Fixpoint rfind_dot_from (s : string) (i : Z) (found : Z) : Z :=
  match s with
  | EmptyString => found
  | String c s' =>
      rfind_dot_from s' (i + 1) (if Ascii.eqb c "."%char then i else found)
  end.

Definition rfind_dot (s : string) : Z := rfind_dot_from s 0 (-1).

(** [path.stem]: [i = name.rfind('.')], then [name[:i]] if
    [0 < i < len(name) - 1] else [name]. *)
Definition path_stem (p : PurePath) : string :=
  let name := path_name p in
  let i := rfind_dot name in
  if (0 <? i)%Z && (i <? Z.of_nat (String.length name) - 1)%Z
  then substring 0 (Z.to_nat i) name
  else name.

Inductive value : Type :=
| VBool (b : bool)
| VInt (z : Z)
| VStr (s : string)
| VPath (p : PurePath).

(** [str(value)] *)
Definition py_str (v : value) : string :=
  match v with
  | VBool true => "True"
  | VBool false => "False"
  | VInt z => NilZero.string_of_int (Z.to_int z)
  | VStr s => s
  | VPath p => path_str p
  end.

(** [isinstance(value, bool) and value is True] *)
Definition is_bool_true (v : value) : bool :=
  match v with
  | VBool true => true
  | _ => false
  end.

Definition path_eqb (p q : PurePath) : bool :=
  Bool.eqb (path_root p) (path_root q)
  && if list_eq_dec string_dec (path_parts p) (path_parts q) then true else false.

(** [a == b]; a boolean equals the integer 0 or 1 it stands for. *)
Definition py_eqb (a b : value) : bool :=
  match a, b with
  | VBool x, VBool y => Bool.eqb x y
  | VInt x, VInt y => Z.eqb x y
  | VBool x, VInt y => Z.eqb (Z.b2z x) y
  | VInt x, VBool y => Z.eqb x (Z.b2z y)
  | VStr x, VStr y => String.eqb x y
  | VPath x, VPath y => path_eqb x y
  | _, _ => false
  end.

(** Equality of tuples, the keys of the result dictionary. *)
Fixpoint tuple_eqb (a b : list value) : bool :=
  match a, b with
  | [], [] => true
  | x :: a', y :: b' => py_eqb x y && tuple_eqb a' b'
  | _, _ => false
  end.

(** [value.stem]: only paths have the attribute. *)
Definition getattr_stem (v : value) : result string :=
  match v with
  | VPath p => Ok (path_stem p)
  | _ => Raise AttributeError
  end.

(** ** Regular expressions, as far as [csv_path_pattern] needs them

    A pattern is a sequence of items matched by backtracking, the way
    [re] does it; there is one capture group. *)

Inductive regex_item : Type :=
| Bol                (* ^ with re.MULTILINE *)
| Eol                (* $ with re.MULTILINE *)
| Lit (c : ascii)    (* a literal character *)
| LazyAny            (* .*? : characters other than newline, as few as possible *)
| GroupStart         (* the opening of the capture group *)
| GroupEnd.

Definition lits (s : string) : list regex_item := map Lit (list_ascii_of_string s).

Definition capture (grp : bool) (cap : string) (c : ascii) : string :=
  if grp then (cap ++ String c EmptyString)%string else cap.

(** Match the pattern at the current position.  [bol]: the position is the
    start of the text or follows a newline; [grp]: the position is inside
    the group; [cap]: the group's text so far. *)
Fixpoint match_here (re : list regex_item) (bol grp : bool) (cap s : string)
  {struct re} : option string :=
  match re with
  | [] => Some cap
  | Bol :: re' => if bol then match_here re' bol grp cap s else None
  | Eol :: re' =>
      match s with
      | EmptyString => match_here re' bol grp cap s
      | String c _ => if Ascii.eqb c nl then match_here re' bol grp cap s else None
      end
  | Lit c :: re' =>
      match s with
      | EmptyString => None
      | String c' s' =>
          if Ascii.eqb c c'
          then match_here re' (Ascii.eqb c' nl) grp (capture grp cap c') s'
          else None
      end
  | GroupStart :: re' => match_here re' bol true EmptyString s
  | GroupEnd :: re' => match_here re' bol false cap s
  | LazyAny :: re' =>
      (fix lazy (bol : bool) (cap s : string) {struct s} : option string :=
         match match_here re' bol grp cap s with
         | Some r => Some r
         | None =>
             match s with
             | EmptyString => None
             | String c s' =>
                 if Ascii.eqb c nl then None
                 else lazy false (capture grp cap c) s'
             end
         end) bol cap s
  end.

(** [pattern.search(text)]: the leftmost position where the pattern
    matches; the result is the group's text. *)
Fixpoint search_from (re : list regex_item) (bol : bool) (s : string)
  : option string :=
  match match_here re bol false EmptyString s with
  | Some r => Some r
  | None =>
      match s with
      | EmptyString => None
      | String c s' => search_from re (Ascii.eqb c nl) s'
      end
  end.

Definition search (re : list regex_item) (s : string) : option string :=
  search_from re true s.

(** ** Lines of a text, for stating what the search finds *)

Fixpoint lines (s : string) : list string :=
  match s with
  | EmptyString => [EmptyString]
  | String c s' =>
      if Ascii.eqb c nl then EmptyString :: lines s'
      else match lines s' with
           | l :: ls => String c l :: ls
           | [] => [String c EmptyString]
           end
  end.

Fixpoint strip_prefix (p s : string) : option string :=
  match p, s with
  | EmptyString, _ => Some s
  | String a p', String b s' => if Ascii.eqb a b then strip_prefix p' s' else None
  | String _ _, EmptyString => None
  end.

Fixpoint ends_with (suffix s : string) : bool :=
  String.eqb suffix s
  || match s with
     | EmptyString => false
     | String _ s' => ends_with suffix s'
     end.

(** The path a line announces, when it reads
    [Stats can be found at: <path>] with a path ending in [.csv]. *)
Definition line_path (l : string) : option string :=
  match strip_prefix "Stats can be found at: " l with
  | Some p => if ends_with ".csv" p then Some p else None
  | None => None
  end.

Fixpoint first_path (ls : list string) : option string :=
  match ls with
  | [] => None
  | l :: ls' =>
      match line_path l with
      | Some p => Some p
      | None => first_path ls'
      end
  end.

(** ** Statistics

    A dataset is what [pd.read_csv] loads: named columns of numbers, one
    number per trial.  The numbers and their mean belong to pandas and stay
    abstract. *)

Definition dataset (num : Type) : Type := dict string (list num).
Definition series (num : Type) : Type := dict string num.

(** [stats.mean()]: one number per column, under the column's name. *)
Definition mean {num : Type} (mean_of : list num -> num) (stats : dataset num)
  : series num :=
  map (fun col => (fst col, mean_of (snd col))) stats.

(** The table the sweep returns, [pd.DataFrame(results).T] with the index
    names set: the names of the index levels and the rows, each a tuple
    label with its series, in the order of the result dictionary. *)
Record table (num : Type) : Type :=
  { index_names : list string; rows : dict (list value) (series num) }.
Arguments index_names {num} t.
Arguments rows {num} t.

Definition add_name (acc : list string) (c : string) : list string :=
  if existsb (String.eqb c) acc then acc else acc ++ [c].






(** The number of levels of the frame's row index: one per component of
    the row labels, and a single level when there is no row or when the
    labels are empty tuples. *)
Definition index_levels {num : Type} (results : dict (list value) (series num))
  : nat :=
  match results with
  | [] => 1
  | row :: _ => Nat.max 1 (List.length (fst row))
  end.

(** [df = pd.DataFrame(results).T] then [df.index.names = params_keys]:
    the assignment raises [ValueError] unless there is one name per index
    level. *)
Definition frame_of_results {num : Type} (params_keys : list string)
  (results : dict (list value) (series num)) : result (table num) :=
  if Nat.eqb (List.length params_keys) (index_levels results)
  then Ok {| index_names := params_keys; rows := results |}
  else Raise ValueError.

(** ** The class [PyRatGame] *)

Module PyRatGame.

(** What an instance attribute can hold. *)
Inductive pyobj : Type :=
| OValue (v : value)
| ODict (d : dict string value).

(** An instance is its attribute dictionary. *)
Record instance : Type := { instance_dict : dict string pyobj }.

(** [^Stats can be found at: (?P<csv_path>.*?\.csv)$], [re.MULTILINE] *)
Definition csv_path_pattern : list regex_item :=
  [Bol] ++ lits "Stats can be found at: "
    ++ [GroupStart; LazyAny] ++ lits ".csv" ++ [GroupEnd; Eol].

(** [object.__setattr__]: binds the attribute on the instance. *)
Definition object_setattr (self : instance) (name : string) (o : pyobj)
  : instance :=
  {| instance_dict := dict_set String.eqb name o (instance_dict self) |}.

Definition default_kwargs : dict string value :=
  [("synchronous", VBool true); ("nodrawing", VBool true)].

(** [{**default_kwargs, **kwargs}] *)
Definition merged_kwargs (kwargs : dict string value) : dict string value :=
  dict_update String.eqb default_kwargs kwargs.

Definition __init__ (kwargs : dict string value) : instance :=
  object_setattr {| instance_dict := [] |} "kwargs" (ODict (merged_kwargs kwargs)).

(** [self.kwargs] *)
Definition getattr_kwargs (self : instance) : result pyobj :=
  match dict_get String.eqb "kwargs" (instance_dict self) with
  | Some o => Ok o
  | None => Raise AttributeError
  end.

(** [self.kwargs.update({name: value})]: the dictionary bound to
    [kwargs] is changed in place. *)
Definition __setattr__ (self : instance) (name : string) (v : value)
  : result instance :=
  o <- getattr_kwargs self ;;
  match o with
  | ODict d =>
      Ok {| instance_dict :=
              dict_set String.eqb "kwargs"
                (ODict (dict_update String.eqb d [(name, v)]))
                (instance_dict self) |}
  | OValue _ => Raise AttributeError
  end.

Definition cmd_line_args (kwargs : dict string value) : list string :=
  fold_left
    (fun args item =>
       let '(name, v) := item in
       if is_bool_true v then args ++ [("--" ++ name)%string]
       else (args ++ [("--" ++ name)%string]) ++ [py_str v])
    kwargs ["python"; "pyrat.py"].

Definition _extract_csv_path (stdout : string) : result string :=
  match search csv_path_pattern stdout with
  | Some csv_path => Ok csv_path
  | None => Raise AttributeError
  end.

(** Instances a program can hold: built by [__init__], then changed by
    attribute assignments. *)
Inductive constructed : instance -> Prop :=
| constructed_init kwargs : constructed (__init__ kwargs)
| constructed_set self name v self' :
    constructed self -> __setattr__ self name v = Ok self' -> constructed self'.

End PyRatGame.

(** ** Running the game and sweeping a grid

    The game and the file system are outside the program.  [subprocess_run]
    gives the decoded standard output of an invocation and [read_csv] the
    dataset behind a path; both may depend on the invocations made so far
    and both may raise. *)

Definition history : Type := list (list string).

(** The state of a sweep: the dictionary bound to [pyrat.kwargs], which the
    loop changes in place, and the invocations made so far. *)
Record state : Type := { kwargs : dict string value; log : history }.

Section World.
Variable num : Type.
Variable mean_of : list num -> num.
Variable subprocess_run : history -> list string -> result string.
Variable read_csv : history -> string -> result (dataset num).

(** [load_stats]: [pd.read_csv(csv_path, skiprows=2)] *)
Definition load_stats (h : history) (csv_path : string) : result (dataset num) :=
  read_csv h csv_path.

(** [run]: the invocation is logged once the process has run. *)
Definition run (kw : dict string value) (h : history)
  : result (string * dataset num) * history :=
  let argv := PyRatGame.cmd_line_args kw in
  match subprocess_run h argv with
  | Raise e => (Raise e, h)
  | Ok stdout =>
      let h' := h ++ [argv] in
      (csv_path <- PyRatGame._extract_csv_path stdout ;;
       stats <- load_stats h' csv_path ;;
       Ok (csv_path, stats), h')
  end.

(** The body of the inner loop of [pyrat_multiruns]. *)
Definition set_param (link_height_width : bool) (kw : dict string value)
  (item : string * value) : dict string value :=
  let '(pname, pvalue) := item in
  let kw := dict_set String.eqb pname pvalue kw in
  let kw :=
    if link_height_width && String.eqb pname "height"
    then dict_set String.eqb "width" pvalue kw else kw in
  if link_height_width && String.eqb pname "width"
  then dict_set String.eqb "height" pvalue kw else kw.

Definition set_params (link_height_width : bool) (params : dict string value)
  (kw : dict string value) : dict string value :=
  fold_left (set_param link_height_width) params kw.

(** One component of the row label. *)
Definition render_pvalue (item : string * value) : result value :=
  let '(pname, pvalue) := item in
  if negb (String.eqb pname "rat" || String.eqb pname "python") then Ok pvalue
  else stem <- getattr_stem pvalue ;; Ok (VStr stem).

Fixpoint render_pvalues (params : dict string value) : result (list value) :=
  match params with
  | [] => Ok []
  | item :: params' =>
      v <- render_pvalue item ;;
      vs <- render_pvalues params' ;;
      Ok (v :: vs)
  end.

(** The body of the outer loop: configure, run, reduce, register. *)
Definition sweep_step (link_height_width : bool) (params : dict string value)
  (results : dict (list value) (series num)) (st : state)
  : result (dict (list value) (series num)) * state :=
  let kw := set_params link_height_width params (kwargs st) in
  let '(r, h) := run kw (log st) in
  (cs <- r ;;
   let stats := mean mean_of (snd cs) in
   pvalues <- render_pvalues params ;;
   Ok (dict_set tuple_eqb pvalues stats results),
   {| kwargs := kw; log := h |}).

Fixpoint sweep_loop (link_height_width : bool) (combos : list (dict string value))
  (results : dict (list value) (series num)) (st : state)
  : result (dict (list value) (series num)) * state :=
  match combos with
  | [] => (Ok results, st)
  | params :: combos' =>
      match sweep_step link_height_width params results st with
      | (Ok results', st') => sweep_loop link_height_width combos' results' st'
      | (Raise e, st') => (Raise e, st')
      end
  end.

Definition pyrat_multiruns (fixed_params : dict string value)
  (grid_params : dict string (list value)) (link_height_width : bool)
  : result (table num) * state :=
  let params_keys := keys grid_params in
  let pyrat := {| kwargs := PyRatGame.merged_kwargs fixed_params; log := [] |} in
  let '(r, st) :=
    sweep_loop link_height_width (dict_product grid_params) [] pyrat in
  (results <- r ;; frame_of_results params_keys results, st).
End World.

(** ** Definitions used to state the results *)

(** The tokens one configuration entry contributes to the command line. *)
Definition flag_tokens (item : string * value) : list string :=
  match snd item with
  | VBool true => [("--" ++ fst item)%string]
  | v => [("--" ++ fst item)%string; py_str v]
  end.

Definition first_line (s : string) : string := hd EmptyString (lines s).

Fixpoint no_newline (s : string) : bool :=
  match s with
  | EmptyString => true
  | String c s' => negb (Ascii.eqb c nl) && no_newline s'
  end.

(** Whether the position after matching the literal text [p] follows a
    newline. *)
Fixpoint bol_after (p : string) (bol : bool) : bool :=
  match p with
  | EmptyString => bol
  | String c p' => bol_after p' (Ascii.eqb c nl)
  end.

(** The position is the end of the text or stands before a newline. *)
Definition at_eol (s : string) : bool :=
  match s with
  | EmptyString => true
  | String c _ => Ascii.eqb c nl
  end.

(** The captured output of the example in the specification. *)
Definition example_stdout : string :=
  ("irrelevant" ++ String nl "Stats can be found at: /tmp/run1.csv"
     ++ String nl "more" ++ String nl EmptyString)%string.

Definition example_grid : dict string (list value) :=
  [("width", [VInt 5; VInt 10]); ("density", [VInt 2; VInt 4])].

(** A world for the examples: the game prints a fixed text and every
    statistics file holds two trials, the second slower with each run. *)
Definition example_world_stdout (stdout : string)
  : history -> list string -> result string :=
  fun _ _ => Ok stdout.

Definition example_world_csv : history -> string -> result (dataset Z) :=
  fun h _ =>
    Ok [("win_rat", [1; 1]%Z);
        ("moves_rat", [10; 10 + 2 * Z.of_nat (List.length h)]%Z)].

Definition example_mean_of (xs : list Z) : Z :=
  (fold_right Z.add 0 xs / Z.of_nat (List.length xs))%Z.

Definition example_state : state :=
  {| kwargs := PyRatGame.merged_kwargs [("width", VInt 13)]; log := [] |}.

(** The configuration is square, with side [v]. *)
Definition squared (kw : dict string value) (v : value) : Prop :=
  dict_get String.eqb "width" kw = Some v
  /\ dict_get String.eqb "height" kw = Some v.

(** The distinct elements of a list, in order of first appearance, for an
    equality given as a boolean function. *)
Definition add_key {K : Type} (eqb : K -> K -> bool) (ks : list K) (k : K) : list K :=
  if existsb (fun k' => eqb k' k) ks then ks else ks ++ [k].

Definition distinct {K : Type} (eqb : K -> K -> bool) (l : list K) : list K :=
  fold_left (add_key eqb) l [].

(** The normal form that [==] compares: a boolean is the integer it
    stands for. *)
Definition py_key (v : value) : value :=
  match v with
  | VBool b => VInt (Z.b2z b)
  | _ => v
  end.

(** What the row label shows for one entry of a combination. *)
Definition rendered (item : string * value) (x : value) : Prop :=
  if String.eqb (fst item) "rat" || String.eqb (fst item) "python"
  then exists p, snd item = VPath p /\ x = VStr (path_stem p)
  else x = snd item.

(** The last entry registered under a label. *)
Definition last_entry {V : Type} (lbl : list value) (entries : dict (list value) V)
  : option V :=
  option_map snd (find (fun e => tuple_eqb (fst e) lbl) (rev entries)).

(** A combination registers an entry: its row label and the means of the
    dataset loaded for its run. *)
Definition registered {num : Type} (mean_of : list num -> num)
  (read_csv : history -> string -> result (dataset num))
  (params : dict string value) (e : list value * series num) : Prop :=
  render_pvalues params = Ok (fst e)
  /\ exists h csv_path stats,
       read_csv h csv_path = Ok stats /\ snd e = mean mean_of stats.

(** The table of a sweep that returned one. *)
Definition table_of {num : Type} (r : result (table num) * state) : table num :=
  match fst r with
  | Ok t => t
  | Raise _ => {| index_names := []; rows := [] |}
  end.

Definition announce : string := "Stats can be found at: saves/1604752342.csv".


(** Two interpreters with the same file name. *)
Definition interpreters_grid : dict string (list value) :=
  [("python",
    [VPath {| path_root := true; path_parts := ["usr"; "bin"; "python3"] |};
     VPath {| path_root := true; path_parts := ["opt"; "conda"; "bin"; "python3"] |}])].

(** An agent given as text rather than as a path. *)
Definition text_agent_params : dict string value :=
  [("width", VInt 5); ("rat", VStr "AIs/lab3_bfs.py")].

Definition example_sweep (grid : dict string (list value))
  : result (table Z) * state :=
  pyrat_multiruns Z example_mean_of (example_world_stdout announce)
    example_world_csv [("pieces", VInt 1)] grid true.

(** The configuration of each run of a sweep, in order: every combination
    is written over the configuration the previous run left. *)
Fixpoint configs (link_height_width : bool) (combos : list (dict string value))
  (kw : dict string value) : list (dict string value) :=
  match combos with
  | [] => []
  | params :: combos' =>
      let kw' := set_params link_height_width params kw in
      kw' :: configs link_height_width combos' kw'
  end.

(** A grid of three widths and two numbers of pieces, and a grid with an
    empty candidate list. *)
Definition widths_grid : dict string (list value) :=
  [("width", [VInt 5; VInt 10; VInt 15]); ("pieces", [VInt 1; VInt 41])].

Definition empty_list_grid : dict string (list value) :=
  [("width", [VInt 5; VInt 10]); ("density", [])].

(** The entries a sweep registers, one per combination in order: the entry
    of a combination is its rendered label with the means of the dataset
    that its own run returned, the run being launched with the
    configuration, and after the invocations, that the combinations before
    it left. *)
Fixpoint recorded {num : Type} (mean_of : list num -> num)
  (subprocess_run : history -> list string -> result string)
  (read_csv : history -> string -> result (dataset num))
  (link_height_width : bool) (combos : list (dict string value))
  (kw : dict string value) (h : history)
  (entries : dict (list value) (series num)) : Prop :=
  match combos, entries with
  | [], [] => True
  | params :: combos', e :: entries' =>
      let kw' := set_params link_height_width params kw in
      let h' := h ++ [PyRatGame.cmd_line_args kw'] in
      exists csv_path stats,
        run num subprocess_run read_csv kw' h = (Ok (csv_path, stats), h')
        /\ render_pvalues params = Ok (fst e)
        /\ snd e = mean mean_of stats
        /\ recorded mean_of subprocess_run read_csv link_height_width
             combos' kw' h' entries'
  | _, _ => False
  end.

(** An agent given as text: the second combination of this grid cannot be
    rendered. *)
Definition text_agent_grid : dict string (list value) :=
  [("rat",
    [VPath {| path_root := false; path_parts := ["AIs"; "lab3_bfs.py"] |};
     VStr "AIs/lab4_dijkstra.py";
     VPath {| path_root := false; path_parts := ["AIs"; "lab5_greedy.py"] |}])].

(** * Theorems *)

(** ** Facts about dictionaries *)

Section DictFacts.
Context {K V : Type}.
Variable eqb : K -> K -> bool.
Hypothesis eqb_spec : forall a b, eqb a b = true <-> a = b.

Lemma dict_set_fresh (k : K) (v : V) (d : dict K V) :
  ~ In k (keys d) -> dict_set eqb k v d = d ++ [(k, v)].
Proof.
  induction d as [|[k' v'] d IH]; simpl; intros Hn; [reflexivity|].
  destruct (eqb k' k) eqn:E.
  - apply eqb_spec in E. exfalso. apply Hn. now left.
  - rewrite IH; [reflexivity|]. intros Hin. apply Hn. now right.
Qed.

Lemma dict_update_fresh (items d : dict K V) :
  NoDup (keys (d ++ items)) -> dict_update eqb d items = d ++ items.
Proof.
  revert d. induction items as [|[k v] items IH]; intros d Hnd.
  - simpl. now rewrite app_nil_r.
  - unfold dict_update in *. simpl.
    assert (Hk : ~ In k (keys d)).
    { unfold keys in Hnd. rewrite map_app in Hnd. simpl in Hnd.
      apply NoDup_remove_2 in Hnd. intros Hin. apply Hnd.
      apply in_or_app. now left. }
    rewrite (dict_set_fresh k v d Hk).
    rewrite IH; rewrite <- app_assoc; simpl; [reflexivity | exact Hnd].
Qed.

Lemma dict_of_items_fresh (items : dict K V) :
  NoDup (keys items) -> dict_of_items eqb items = items.
Proof.
  intros Hnd. unfold dict_of_items. now rewrite dict_update_fresh.
Qed.
End DictFacts.

Lemma string_eqb_spec (a b : string) : String.eqb a b = true <-> a = b.
Proof. apply String.eqb_eq. Qed.

(** ** The combination generator *)

Lemma flat_map_flat_map {A B C : Type} (f : A -> list B) (g : B -> list C)
  (l : list A) :
  flat_map g (flat_map f l) = flat_map (fun x => flat_map g (f x)) l.
Proof.
  induction l as [|a l IH]; simpl; [reflexivity|].
  now rewrite flat_map_app, IH.
Qed.

Lemma flat_map_map {A B C : Type} (f : A -> B) (g : B -> list C) (l : list A) :
  flat_map g (map f l) = flat_map (fun x => g (f x)) l.
Proof.
  induction l as [|a l IH]; simpl; [reflexivity|]. now rewrite IH.
Qed.

Lemma map_flat_map {A B C : Type} (f : A -> list B) (g : B -> C) (l : list A) :
  map g (flat_map f l) = flat_map (fun x => map g (f x)) l.
Proof.
  induction l as [|a l IH]; simpl; [reflexivity|].
  now rewrite map_app, IH.
Qed.

(** The loop of [itertools.product], started from any partial result. *)
Lemma product_loop {A : Type} (pools : list (list A)) (acc : list (list A)) :
  fold_left
    (fun result pool => flat_map (fun x => map (fun y => x ++ [y]) pool) result)
    pools acc
  = flat_map (fun x => map (app x) (tuples pools)) acc.
Proof.
  revert acc. induction pools as [|pool pools IH]; intros acc; simpl.
  - induction acc as [|x acc IHa]; simpl; [reflexivity|].
    now rewrite app_nil_r, <- IHa.
  - rewrite IH, flat_map_flat_map.
    apply flat_map_ext. intros x.
    rewrite flat_map_map, map_flat_map.
    apply flat_map_ext. intros y.
    rewrite map_map. apply map_ext. intros t.
    now rewrite <- app_assoc.
Qed.

Lemma product_tuples {A : Type} (pools : list (list A)) :
  product pools = tuples pools.
Proof.
  unfold product. rewrite product_loop. simpl.
  rewrite app_nil_r.
  transitivity (map (fun t : list A => t) (tuples pools));
    [apply map_ext; reflexivity | apply map_id].
Qed.

Lemma tuples_length {A : Type} (pools : list (list A)) (t : list A) :
  In t (tuples pools) -> List.length t = List.length pools.
Proof.
  revert t. induction pools as [|pool pools IH]; simpl; intros t Hin.
  - destruct Hin as [<-|[]]. reflexivity.
  - apply in_flat_map in Hin. destruct Hin as [y [_ Hin]].
    apply in_map_iff in Hin. destruct Hin as [t' [<- Hin]].
    simpl. now rewrite (IH t').
Qed.

Lemma keys_combine {K V : Type} (ks : list K) (vs : list V) :
  List.length vs = List.length ks -> keys (combine ks vs) = ks.
Proof.
  revert vs. induction ks as [|k ks IH]; intros [|v vs]; simpl; try discriminate.
  - reflexivity.
  - intros H. f_equal. apply IH. lia.
Qed.

Lemma combine_tuples_cartesian {V : Type} (g : dict string (list V)) :
  map (combine (keys g)) (tuples (values g)) = cartesian g.
Proof.
  induction g as [|[k vs] g IH]; simpl; [reflexivity|].
  rewrite map_flat_map. apply flat_map_ext. intros v.
  rewrite map_map. rewrite <- IH, map_map. reflexivity.
Qed.

Lemma dict_product_cartesian {V : Type} (g : dict string (list V)) :
  dict_wf g -> dict_product g = cartesian g.
Proof.
  intros Hwf. unfold dict_product. rewrite product_tuples.
  rewrite <- combine_tuples_cartesian.
  apply map_ext_in. intros t Hin.
  apply (dict_of_items_fresh String.eqb string_eqb_spec).
  rewrite keys_combine; [exact Hwf|].
  rewrite (tuples_length _ _ Hin). unfold values, keys. now rewrite !length_map.
Qed.

Lemma cartesian_length {V : Type} (g : dict string (list V)) :
  List.length (cartesian g) = list_prod (map (@List.length V) (values g)).
Proof.
  induction g as [|[k vs] g IH]; simpl; [reflexivity|].
  fold (list_prod (map (@List.length V) (values g))).
  rewrite <- IH. clear IH.
  induction vs as [|v vs IHv]; simpl; [reflexivity|].
  rewrite length_app, length_map. f_equal. exact IHv.
Qed.

Lemma cartesian_In {V : Type} (g : dict string (list V)) (m : dict string V) :
  In m (cartesian g)
  <-> keys m = keys g /\ Forall2 (@In V) (values m) (values g).
Proof.
  revert m. induction g as [|[k vs] g IH]; intros m; simpl.
  - split.
    + intros [<-|[]]. split; [reflexivity | constructor].
    + intros [Hk _]. left. destruct m; [reflexivity | discriminate].
  - rewrite in_flat_map. split.
    + intros [v [Hv Hin]]. apply in_map_iff in Hin.
      destruct Hin as [m' [<- Hin]]. apply IH in Hin. destruct Hin as [Hk Hf].
      simpl. split; [now f_equal | now constructor].
    + intros [Hk Hf]. destruct m as [|[k' v] m']; [discriminate|].
      simpl in *. injection Hk as -> Hk. inversion Hf; subst.
      exists v. split; [assumption|].
      apply in_map. apply IH. now split.
Qed.

(** C1. For a parameter grid [G], [dict_product] yields exactly the product
    of the lengths of the candidate lists; the yielded mappings are exactly
    those with the keys of [G], in [G]'s key order, and one value per key
    taken from that key's list; and the sequence is the cartesian product
    in the order of the lists, the first key varying slowest.  The sequence
    is a function of the grid, hence the same on the same input. *)
Theorem dict_product_spec {V : Type} (G : dict string (list V)) :
  dict_wf G ->
  List.length (dict_product G) = list_prod (map (@List.length V) (values G))
  /\ (forall m, In m (dict_product G)
                <-> keys m = keys G /\ Forall2 (@In V) (values m) (values G))
  /\ dict_product G = cartesian G.
Proof.
  intros Hwf. rewrite (dict_product_cartesian G Hwf).
  split; [apply cartesian_length|].
  split; [apply cartesian_In | reflexivity].
Qed.

Lemma example_grid_wf : dict_wf example_grid.
Proof.
  unfold dict_wf. simpl. repeat constructor; simpl; intuition discriminate.
Qed.

Lemma dict_product_spec_witness :
  dict_wf example_grid
  /\ List.length (dict_product example_grid) = 4
  /\ dict_product example_grid
     = [[("width", VInt 5); ("density", VInt 2)];
        [("width", VInt 5); ("density", VInt 4)];
        [("width", VInt 10); ("density", VInt 2)];
        [("width", VInt 10); ("density", VInt 4)]].
Proof.
  split; [exact example_grid_wf|].
  destruct (dict_product_spec example_grid example_grid_wf) as [Hlen [_ Heq]].
  split; [rewrite Hlen; reflexivity | rewrite Heq; reflexivity].
Defined.

(** C2, amended. For the empty grid, [dict_product] yields exactly one
    combination, the empty mapping. *)
Theorem dict_product_empty_grid {V : Type} :
  dict_product (@nil (string * list V)) = [[]].
Proof. reflexivity. Qed.

(** C2 as stated fails: the sequence for the empty grid is not empty. *)
Lemma dict_product_empty_grid_nonempty :
  dict_product (@nil (string * list value)) = [[]]
  /\ dict_product (@nil (string * list value)) <> [].
Proof. split; [reflexivity | discriminate]. Qed.

(** The sequence is empty exactly when some candidate list is. *)
Lemma dict_product_nil_iff {V : Type} (G : dict string (list V)) :
  dict_wf G -> (dict_product G = [] <-> In [] (values G)).
Proof.
  intros Hwf. rewrite (dict_product_cartesian G Hwf). clear Hwf.
  induction G as [|[k vs] G IH]; simpl.
  - split; [discriminate | intros []].
  - split.
    + intros H. destruct vs as [|v vs]; [now left|]. right. apply IH.
      simpl in H. apply app_eq_nil in H. destruct H as [H _].
      destruct (cartesian G); [reflexivity | discriminate].
    + intros [->|H]; [reflexivity|]. apply IH in H. rewrite H.
      clear. induction vs; simpl; auto.
Qed.

(** ** The command line *)

Lemma cmd_line_args_loop (kwargs : dict string value) (args : list string) :
  fold_left
    (fun args item =>
       let '(name, v) := item in
       if is_bool_true v then args ++ [("--" ++ name)%string]
       else (args ++ [("--" ++ name)%string]) ++ [py_str v])
    kwargs args
  = args ++ flat_map flag_tokens kwargs.
Proof.
  revert args. induction kwargs as [|[name v] kwargs IH]; intros args; simpl.
  - now rewrite app_nil_r.
  - rewrite IH. unfold flag_tokens at 2. simpl.
    destruct v as [[|]| | |]; simpl; rewrite <- ?app_assoc; reflexivity.
Qed.

(** C3. The command line is the interpreter and the entry point, then for
    each configuration entry in the mapping's order the flag alone when the
    value is the boolean [True], and the flag followed by the value's string
    form otherwise; the configuration of the example gives the stated
    tail. *)
Theorem cmd_line_args_spec :
  (forall kwargs : dict string value,
      PyRatGame.cmd_line_args kwargs
      = ["python"; "pyrat.py"] ++ flat_map flag_tokens kwargs)
  /\ (forall (name : string) (v : value),
         flag_tokens (name, v)
         = if is_bool_true v then [("--" ++ name)%string]
           else [("--" ++ name)%string; py_str v])
  /\ PyRatGame.cmd_line_args
       [("nodrawing", VBool true); ("width", VInt 13); ("rat", VStr "ai.py")]
     = ["python"; "pyrat.py"] ++ ["--nodrawing"; "--width"; "13"; "--rat"; "ai.py"].
Proof.
  split; [|split].
  - intros kwargs. apply cmd_line_args_loop.
  - intros name [[|]| | |]; reflexivity.
  - reflexivity.
Qed.

(** ** Extraction of the statistics path *)

Lemma string_app_assoc (a b c : string) :
  ((a ++ b) ++ c = a ++ (b ++ c))%string.
Proof. induction a as [|x a IH]; simpl; [reflexivity | now rewrite IH]. Qed.

Lemma lines_cons (s : string) : lines s = first_line s :: tl (lines s).
Proof.
  unfold first_line. destruct s as [|c s]; simpl; [reflexivity|].
  destruct (Ascii.eqb c nl); [reflexivity|].
  destruct (lines s); reflexivity.
Qed.

Lemma first_line_String (c : ascii) (s : string) :
  first_line (String c s)
  = if Ascii.eqb c nl then EmptyString else String c (first_line s).
Proof.
  unfold first_line. simpl. destruct (Ascii.eqb c nl); [reflexivity|].
  destruct (lines s); reflexivity.
Qed.

Lemma tl_lines_String (c : ascii) (s : string) :
  tl (lines (String c s)) = if Ascii.eqb c nl then lines s else tl (lines s).
Proof.
  simpl. destruct (Ascii.eqb c nl); [reflexivity|].
  destruct (lines s); reflexivity.
Qed.

(** Unfolding equations of the matcher. *)
Lemma match_here_lazy (re : list regex_item) (bol grp : bool) (cap s : string) :
  match_here (LazyAny :: re) bol grp cap s
  = match match_here re bol grp cap s with
    | Some r => Some r
    | None =>
        match s with
        | EmptyString => None
        | String c s' =>
            if Ascii.eqb c nl then None
            else match_here (LazyAny :: re) false grp (capture grp cap c) s'
        end
    end.
Proof. destruct s; reflexivity. Qed.

Lemma match_here_lits (p : string) :
  forall (re : list regex_item) (bol grp : bool) (cap s : string),
    match_here (lits p ++ re) bol grp cap s
    = match strip_prefix p s with
      | Some s' =>
          match_here re (bol_after p bol) grp
            (if grp then (cap ++ p)%string else cap) s'
      | None => None
      end.
Proof.
  induction p as [|a p IH]; intros re bol grp cap s.
  - simpl. destruct grp; [|reflexivity].
    replace (cap ++ EmptyString)%string with cap; [reflexivity|].
    clear. induction cap as [|x cap IHc]; simpl; [reflexivity | now rewrite <- IHc].
  - destruct s as [|b s]; [reflexivity|].
    change (lits (String a p) ++ re) with (Lit a :: (lits p ++ re)).
    simpl. destruct (Ascii.eqb_spec a b) as [<-|Hne]; [|reflexivity].
    rewrite IH. destruct (strip_prefix p s); [|reflexivity].
    unfold capture. destruct grp; [|reflexivity].
    now rewrite string_app_assoc.
Qed.

(** A literal text without newline, followed by the end of the line, is
    matched exactly when it is the whole first line. *)
Lemma strip_prefix_eol (p : string) :
  no_newline p = true ->
  forall s,
    match strip_prefix p s with Some s' => at_eol s' | None => false end
    = String.eqb p (first_line s).
Proof.
  induction p as [|a p IH]; intros Hnl s.
  - destruct s as [|c s]; [reflexivity|].
    simpl. rewrite first_line_String. now destruct (Ascii.eqb c nl).
  - simpl in Hnl. apply andb_true_iff in Hnl. destruct Hnl as [Ha Hp].
    apply negb_true_iff in Ha.
    destruct s as [|b s]; [reflexivity|].
    simpl strip_prefix. rewrite first_line_String.
    destruct (Ascii.eqb_spec a b) as [<-|Hne].
    + rewrite Ha. simpl. rewrite Ascii.eqb_refl. now apply IH.
    + destruct (Ascii.eqb b nl); [reflexivity|].
      simpl. apply Ascii.eqb_neq in Hne. now rewrite Hne.
Qed.

Lemma strip_prefix_first_line (p : string) :
  no_newline p = true ->
  forall s,
    strip_prefix p (first_line s) = option_map first_line (strip_prefix p s).
Proof.
  induction p as [|a p IH]; intros Hnl s; [reflexivity|].
  simpl in Hnl. apply andb_true_iff in Hnl. destruct Hnl as [Ha Hp].
  apply negb_true_iff in Ha.
  destruct s as [|b s]; [reflexivity|].
  rewrite first_line_String. simpl strip_prefix at 2.
  destruct (Ascii.eqb b nl) eqn:Hb.
  - apply Ascii.eqb_eq in Hb. subst b. simpl. now rewrite Ha.
  - simpl. destruct (Ascii.eqb a b); [now apply IH | reflexivity].
Qed.

(** The end of the pattern: [\.csv], the end of the group, [$]. *)
Lemma match_here_csv_eol (bol : bool) (cap s : string) :
  match_here (lits ".csv" ++ [GroupEnd; Eol]) bol true cap s
  = if String.eqb ".csv" (first_line s) then Some (cap ++ ".csv")%string else None.
Proof.
  rewrite match_here_lits.
  rewrite <- (strip_prefix_eol ".csv" eq_refl s).
  destruct (strip_prefix ".csv" s) as [s'|]; [|reflexivity].
  destruct s' as [|c s']; [reflexivity|].
  simpl. now destruct (Ascii.eqb c nl).
Qed.

(** The lazy repetition followed by the end of the pattern takes the rest
    of the line, provided the line ends in [.csv]. *)
Lemma match_here_lazy_csv (s : string) :
  forall (bol : bool) (cap : string),
    match_here (LazyAny :: lits ".csv" ++ [GroupEnd; Eol]) bol true cap s
    = if ends_with ".csv" (first_line s)
      then Some (cap ++ first_line s)%string else None.
Proof.
  induction s as [|c s IH]; intros bol cap;
    rewrite match_here_lazy, match_here_csv_eol.
  - reflexivity.
  - rewrite first_line_String.
    destruct (Ascii.eqb c nl) eqn:Hc; [reflexivity|].
    destruct (String.eqb ".csv" (String c (first_line s))) eqn:He.
    + apply String.eqb_eq in He. rewrite <- He. reflexivity.
    + rewrite IH. unfold capture.
      change (ends_with ".csv" (String c (first_line s)))
        with (String.eqb ".csv" (String c (first_line s))
              || ends_with ".csv" (first_line s)).
      rewrite He. simpl orb.
      destruct (ends_with ".csv" (first_line s)); [|reflexivity].
      now rewrite string_app_assoc.
Qed.

(** At the start of a line the pattern matches exactly when the line
    announces a path, and the group is that path. *)
Lemma match_here_pattern_bol (s : string) :
  match_here PyRatGame.csv_path_pattern true false EmptyString s
  = line_path (first_line s).
Proof.
  unfold PyRatGame.csv_path_pattern, line_path.
  change ([Bol] ++ lits "Stats can be found at: "
            ++ [GroupStart; LazyAny] ++ lits ".csv" ++ [GroupEnd; Eol])
    with (Bol :: (lits "Stats can be found at: "
            ++ GroupStart :: LazyAny :: lits ".csv" ++ [GroupEnd; Eol])).
  change (match_here (Bol :: ?re) true false EmptyString s)
    with (match_here re true false EmptyString s).
  rewrite match_here_lits.
  rewrite (strip_prefix_first_line "Stats can be found at: " eq_refl s).
  destruct (strip_prefix "Stats can be found at: " s) as [s'|]; [|reflexivity].
  change (match_here (GroupStart :: ?re) ?b false EmptyString s')
    with (match_here re b true EmptyString s').
  rewrite match_here_lazy_csv. reflexivity.
Qed.

Lemma match_here_pattern_not_bol (s : string) :
  match_here PyRatGame.csv_path_pattern false false EmptyString s = None.
Proof. reflexivity. Qed.

(** The search returns the path announced by the first line that announces
    one. *)
Lemma search_from_lines (s : string) :
  forall bol : bool,
    search_from PyRatGame.csv_path_pattern bol s
    = first_path (if bol then lines s else tl (lines s)).
Proof.
  induction s as [|c s IH]; intros [|].
  - reflexivity.
  - reflexivity.
  - unfold search_from; fold search_from.
    rewrite match_here_pattern_bol, (lines_cons (String c s)).
    cbn [first_path]. destruct (line_path (first_line (String c s))); [reflexivity|].
    rewrite IH, tl_lines_String. now destruct (Ascii.eqb c nl).
  - unfold search_from; fold search_from.
    rewrite match_here_pattern_not_bol, IH, tl_lines_String.
    now destruct (Ascii.eqb c nl).
Qed.

Lemma search_lines (stdout : string) :
  search PyRatGame.csv_path_pattern stdout = first_path (lines stdout).
Proof. apply (search_from_lines stdout true). Qed.

Lemma strip_prefix_Some (p l r : string) :
  strip_prefix p l = Some r <-> l = (p ++ r)%string.
Proof.
  revert l. induction p as [|a p IH]; intros l; simpl.
  - split; [now intros [= ->] | now intros ->].
  - destruct l as [|b l]; [split; discriminate|].
    destruct (Ascii.eqb_spec a b) as [<-|Hne].
    + rewrite IH. split; [now intros -> | now intros [= ->]].
    + split; [discriminate | intros H; congruence].
Qed.

Lemma ends_with_iff (suffix s : string) :
  ends_with suffix s = true <-> exists q, s = (q ++ suffix)%string.
Proof.
  induction s as [|c s IH]; simpl.
  - rewrite orb_false_r, String.eqb_eq. split.
    + intros ->. now exists EmptyString.
    + intros [[|x q] H]; simpl in H; [now symmetry | discriminate].
  - rewrite orb_true_iff, String.eqb_eq, IH. split.
    + intros [->|[q ->]]; [now exists EmptyString | now exists (String c q)].
    + intros [[|x q] H]; simpl in H; [left; now symmetry|].
      injection H as -> ->. right. now exists q.
Qed.

Lemma line_path_iff (l p : string) :
  line_path l = Some p
  <-> l = ("Stats can be found at: " ++ p)%string
      /\ exists q, p = (q ++ ".csv")%string.
Proof.
  unfold line_path. rewrite <- ends_with_iff, <- strip_prefix_Some.
  destruct (strip_prefix "Stats can be found at: " l) as [r|].
  - destruct (ends_with ".csv" r) eqn:E.
    + split; [intros [= ->]; now split | now intros [H _]].
    + split; [discriminate | intros [[= ->] H]; congruence].
  - split; [discriminate | intros [H _]; discriminate].
Qed.

Lemma first_path_found (ls : list string) (l : string) :
  In l ls -> line_path l <> None ->
  exists before l' after p,
    ls = before ++ l' :: after
    /\ Forall (fun x => line_path x = None) before
    /\ line_path l' = Some p
    /\ first_path ls = Some p.
Proof.
  induction ls as [|x ls IH]; intros Hin Hl; [destruct Hin|].
  simpl. destruct (line_path x) as [p|] eqn:Hx.
  - exists [], x, ls, p. repeat split; [constructor | assumption].
  - destruct Hin as [->|Hin]; [contradiction|].
    destruct (IH Hin Hl) as (before & l' & after & p & -> & Hb & Hl' & Hf).
    exists (x :: before), l', after, p.
    repeat split; [now constructor | assumption | assumption].
Qed.

Lemma first_path_absent (ls : list string) :
  (forall l, In l ls -> line_path l = None) -> first_path ls = None.
Proof.
  induction ls as [|x ls IH]; intros H; [reflexivity|].
  simpl. rewrite (H x (or_introl eq_refl)). apply IH.
  intros l Hl. apply H. now right.
Qed.

(** C4. When some line of the captured output reads
    [Stats can be found at: <path>] with a path ending in [.csv], the
    extraction returns the path of that line, the first such line of the
    whole output; the output of the specification's example gives
    [/tmp/run1.csv]. *)
Theorem extract_csv_path_found :
  (forall stdout l : string,
      In l (lines stdout) -> line_path l <> None ->
      exists before l' after p,
        lines stdout = before ++ l' :: after
        /\ Forall (fun x => line_path x = None) before
        /\ (l' = ("Stats can be found at: " ++ p)%string
            /\ exists q, p = (q ++ ".csv")%string)
        /\ PyRatGame._extract_csv_path stdout = Ok p)
  /\ PyRatGame._extract_csv_path example_stdout = Ok "/tmp/run1.csv"%string.
Proof.
  split.
  - intros stdout l Hin Hl.
    destruct (first_path_found _ l Hin Hl) as (before & l' & after & p & E & Hb & Hl' & Hf).
    exists before, l', after, p. repeat split; try assumption.
    + now apply line_path_iff in Hl'.
    + now apply line_path_iff in Hl'.
    + unfold PyRatGame._extract_csv_path. now rewrite search_lines, Hf.
  - reflexivity.
Qed.

Lemma extract_csv_path_found_witness :
  exists before l' after p,
    lines example_stdout = before ++ l' :: after
    /\ Forall (fun x => line_path x = None) before
    /\ (l' = ("Stats can be found at: " ++ p)%string
        /\ exists q, p = (q ++ ".csv")%string)
    /\ PyRatGame._extract_csv_path example_stdout = Ok p.
Proof.
  apply (proj1 extract_csv_path_found example_stdout
           "Stats can be found at: /tmp/run1.csv"%string).
  - simpl. right. left. reflexivity.
  - discriminate.
Defined.

Section RunFacts.
Variable num : Type.
Variable mean_of : list num -> num.
Variable subprocess_run : history -> list string -> result string.
Variable read_csv : history -> string -> result (dataset num).

Lemma run_extract_failure (stdout : string) (kw : dict string value) (h : history) :
  PyRatGame._extract_csv_path stdout = Raise AttributeError ->
  subprocess_run h (PyRatGame.cmd_line_args kw) = Ok stdout ->
  run num subprocess_run read_csv kw h
  = (Raise AttributeError, h ++ [PyRatGame.cmd_line_args kw]).
Proof.
  intros He Hs. unfold run. rewrite Hs, He. reflexivity.
Qed.

(** A run logs exactly its own invocation when the process ran, and
    nothing when it could not be started. *)
Lemma run_log (kw : dict string value) (h h2 : history)
  (r : result (string * dataset num)) :
  run num subprocess_run read_csv kw h = (r, h2) ->
  h2 = h ++ [PyRatGame.cmd_line_args kw] \/ (h2 = h /\ exists e, r = Raise e).
Proof.
  unfold run. destruct (subprocess_run h (PyRatGame.cmd_line_args kw)) as [out|e].
  - intros [= _ <-]. now left.
  - intros [= <- <-]. right. split; [reflexivity | now exists e].
Qed.
End RunFacts.

(** C5. When no line of the captured output announces a path, the
    extraction raises, it returns no path; the run raises the same error
    after the one invocation it made, and the sweep stops there with that
    error. *)
Theorem extract_csv_path_absent (num : Type) (mean_of : list num -> num)
  (subprocess_run : history -> list string -> result string)
  (read_csv : history -> string -> result (dataset num)) (stdout : string) :
  (forall l, In l (lines stdout) -> line_path l = None) ->
  PyRatGame._extract_csv_path stdout = Raise AttributeError
  /\ (forall kw h,
         subprocess_run h (PyRatGame.cmd_line_args kw) = Ok stdout ->
         run num subprocess_run read_csv kw h
         = (Raise AttributeError, h ++ [PyRatGame.cmd_line_args kw]))
  /\ (forall link params combos results st,
         let kw := set_params link params (kwargs st) in
         subprocess_run (log st) (PyRatGame.cmd_line_args kw) = Ok stdout ->
         sweep_loop num mean_of subprocess_run read_csv link
           (params :: combos) results st
         = (Raise AttributeError,
            {| kwargs := kw; log := log st ++ [PyRatGame.cmd_line_args kw] |})).
Proof.
  intros Hno.
  assert (He : PyRatGame._extract_csv_path stdout = Raise AttributeError).
  { unfold PyRatGame._extract_csv_path.
    now rewrite search_lines, (first_path_absent _ Hno). }
  split; [exact He|]. split.
  - intros kw h Hs. now apply (run_extract_failure num subprocess_run read_csv stdout).
  - intros link params combos results st kw Hs.
    simpl. unfold sweep_step. fold kw.
    rewrite (run_extract_failure num subprocess_run read_csv stdout kw (log st) He Hs).
    reflexivity.
Qed.

Lemma extract_csv_path_absent_witness :
  PyRatGame._extract_csv_path "Traceback: no maze" = Raise AttributeError
  /\ sweep_loop Z example_mean_of (example_world_stdout "Traceback: no maze")
       example_world_csv false [[("width", VInt 5)]; [("width", VInt 10)]] []
       example_state
     = (Raise AttributeError,
        {| kwargs := [("synchronous", VBool true); ("nodrawing", VBool true);
                      ("width", VInt 5)];
           log := [["python"; "pyrat.py"; "--synchronous"; "--nodrawing";
                    "--width"; "5"]] |}).
Proof.
  assert (Hno : forall l, In l (lines "Traceback: no maze") -> line_path l = None).
  { intros l [<-|[]]. reflexivity. }
  destruct (extract_csv_path_absent Z example_mean_of
              (example_world_stdout "Traceback: no maze") example_world_csv
              "Traceback: no maze" Hno) as [He [_ Hsweep]].
  split; [exact He|].
  exact (Hsweep false [("width", VInt 5)] [[("width", VInt 10)]] []
           example_state eq_refl).
Defined.

(** ** Lookup after update

    Key equality is an equivalence: it compares normal forms. *)

Section DictLookup.
Context {K N V : Type}.
Variable eqb : K -> K -> bool.
Variable norm : K -> N.
Hypothesis eqb_norm : forall a b, eqb a b = true <-> norm a = norm b.

Lemma eqb_norm_false (a b : K) : eqb a b = false <-> norm a <> norm b.
Proof.
  rewrite <- eqb_norm. destruct (eqb a b); split; congruence.
Qed.

Ltac by_norm :=
  repeat match goal with
    | H : eqb _ _ = true |- _ => apply eqb_norm in H
    | H : eqb _ _ = false |- _ => apply eqb_norm_false in H
    end;
  congruence.

Lemma dict_get_set (k k' : K) (v : V) (d : dict K V) :
  dict_get eqb k (dict_set eqb k' v d)
  = if eqb k' k then Some v else dict_get eqb k d.
Proof.
  induction d as [|[k0 v0] d IH]; simpl; [reflexivity|].
  destruct (eqb k0 k') eqn:E0; simpl.
  - destruct (eqb k0 k) eqn:E1, (eqb k' k) eqn:E2; try reflexivity; by_norm.
  - rewrite IH.
    destruct (eqb k0 k) eqn:E1, (eqb k' k) eqn:E2; try reflexivity; by_norm.
Qed.

Lemma dict_get_absent (k : K) (d : dict K V) :
  (forall k', In k' (keys d) -> eqb k' k = false) -> dict_get eqb k d = None.
Proof.
  induction d as [|[k0 v0] d IH]; simpl; intros H; [reflexivity|].
  rewrite (H k0 (or_introl eq_refl)). apply IH. intros k' Hk'. apply H. now right.
Qed.
End DictLookup.

Lemma string_eqb_norm (a b : string) : String.eqb a b = true <-> id a = id b.
Proof. apply String.eqb_eq. Qed.

Lemma kwargs_get_set (k k' : string) (v : value) (kw : dict string value) :
  dict_get String.eqb k (dict_set String.eqb k' v kw)
  = if String.eqb k' k then Some v else dict_get String.eqb k kw.
Proof. exact (dict_get_set String.eqb id string_eqb_norm k k' v kw). Qed.

(** ** Linking height and width *)

Lemma set_param_unlinked (link : bool) (kw : dict string value)
  (pname : string) (v : value) :
  link = false \/ (pname <> "width"%string /\ pname <> "height"%string) ->
  set_param link kw (pname, v) = dict_set String.eqb pname v kw.
Proof.
  intros [->|[Hw Hh]]; [reflexivity|].
  apply String.eqb_neq in Hw, Hh. unfold set_param. rewrite Hw, Hh.
  now rewrite !andb_false_r.
Qed.

Lemma set_param_squared (kw : dict string value) (pname : string) (v : value) :
  pname = "width"%string \/ pname = "height"%string ->
  squared (set_param true kw (pname, v)) v.
Proof.
  intros [->| ->]; unfold squared; simpl; rewrite !kwargs_get_set; now split.
Qed.

Lemma set_params_untouched (link : bool) (params : dict string value) :
  forall (kw : dict string value) (k : string),
    ~ In k (keys params) ->
    (link = false \/ (forall pname, In pname (keys params) ->
                        pname <> "width"%string /\ pname <> "height"%string)) ->
    dict_get String.eqb k (set_params link params kw) = dict_get String.eqb k kw.
Proof.
  induction params as [|[pname v] params IH]; intros kw k Hk Hl; [reflexivity|].
  unfold set_params in *. cbn [fold_left].
  rewrite IH.
  - rewrite set_param_unlinked.
    + rewrite kwargs_get_set.
      destruct (String.eqb_spec pname k) as [->|Hne]; [|reflexivity].
      exfalso. apply Hk. now left.
    + destruct Hl as [->|Hl]; [now left | right; apply Hl; now left].
  - intros Hin. apply Hk. now right.
  - destruct Hl as [->|Hl]; [now left | right].
    intros p Hp. apply Hl. now right.
Qed.





(** ** Attribute assignment *)

Lemma constructed_shape (self : PyRatGame.instance) :
  PyRatGame.constructed self ->
  exists kw, PyRatGame.instance_dict self = [("kwargs"%string, PyRatGame.ODict kw)].
Proof.
  induction 1 as [kwargs0 | self name v self' _ [kw Hkw] Hset].
  - now exists (PyRatGame.merged_kwargs kwargs0).
  - unfold PyRatGame.__setattr__, PyRatGame.getattr_kwargs in Hset.
    rewrite Hkw in Hset. simpl in Hset. injection Hset as <-.
    now eexists.
Qed.

(** C8. On a constructed driver, assigning attribute [name] the value [v]
    succeeds and stores [v] under [name] in the configuration; the other
    configuration entries keep their values, and the instance still has the
    single field [kwargs], bound to the configuration: no field [name] is
    created, whatever the name. *)
Theorem setattr_writes_configuration (self : PyRatGame.instance)
  (name : string) (v : value) :
  PyRatGame.constructed self ->
  exists kw,
    PyRatGame.instance_dict self = [("kwargs"%string, PyRatGame.ODict kw)]
    /\ PyRatGame.__setattr__ self name v
       = Ok {| PyRatGame.instance_dict :=
                 [("kwargs"%string, PyRatGame.ODict (dict_set String.eqb name v kw))] |}
    /\ dict_get String.eqb name (dict_set String.eqb name v kw) = Some v
    /\ (forall k, k <> name ->
                  dict_get String.eqb k (dict_set String.eqb name v kw)
                  = dict_get String.eqb k kw).
Proof.
  intros Hc. destruct (constructed_shape self Hc) as [kw Hkw].
  exists kw. split; [exact Hkw|]. split; [|split].
  - unfold PyRatGame.__setattr__, PyRatGame.getattr_kwargs.
    rewrite Hkw. reflexivity.
  - rewrite kwargs_get_set. now rewrite String.eqb_refl.
  - intros k Hk. rewrite kwargs_get_set.
    destruct (String.eqb_spec name k) as [->|_]; [contradiction | reflexivity].
Qed.

Lemma setattr_writes_configuration_witness :
  exists kw,
    PyRatGame.instance_dict (PyRatGame.__init__ [("width", VInt 13)])
    = [("kwargs"%string, PyRatGame.ODict kw)]
    /\ PyRatGame.__setattr__ (PyRatGame.__init__ [("width", VInt 13)])
         "kwargs" (VInt 5)
       = Ok {| PyRatGame.instance_dict :=
                 [("kwargs"%string,
                   PyRatGame.ODict (dict_set String.eqb "kwargs" (VInt 5) kw))] |}
    /\ dict_get String.eqb "kwargs" (dict_set String.eqb "kwargs" (VInt 5) kw)
       = Some (VInt 5)
    /\ (forall k, k <> "kwargs"%string ->
                  dict_get String.eqb k (dict_set String.eqb "kwargs" (VInt 5) kw)
                  = dict_get String.eqb k kw).
Proof.
  apply (setattr_writes_configuration
           (PyRatGame.__init__ [("width", VInt 13)]) "kwargs" (VInt 5)).
  apply PyRatGame.constructed_init.
Defined.

(** ** Dictionaries built entry by entry *)

Lemma find_app {A : Type} (f : A -> bool) (l1 l2 : list A) :
  find f (l1 ++ l2) = match find f l1 with Some a => Some a | None => find f l2 end.
Proof.
  induction l1 as [|a l1 IH]; simpl; [reflexivity|]. now destruct (f a).
Qed.

Section DictBuild.
Context {K N V : Type}.
Variable eqb : K -> K -> bool.
Variable norm : K -> N.
Hypothesis eqb_norm : forall a b, eqb a b = true <-> norm a = norm b.

Lemma keys_dict_set (k : K) (v : V) (d : dict K V) :
  keys (dict_set eqb k v d) = add_key eqb (keys d) k.
Proof.
  unfold add_key. induction d as [|[k0 v0] d IH]; simpl; [reflexivity|].
  destruct (eqb k0 k); simpl; [reflexivity|].
  rewrite IH. now destruct (existsb (fun k' => eqb k' k) (keys d)).
Qed.

Lemma keys_dict_update (items d : dict K V) :
  keys (dict_update eqb d items) = fold_left (add_key eqb) (keys items) (keys d).
Proof.
  unfold dict_update. revert d.
  induction items as [|[k v] items IH]; intros d; simpl; [reflexivity|].
  now rewrite IH, keys_dict_set.
Qed.

Lemma keys_dict_of_items (items : dict K V) :
  keys (dict_of_items eqb items) = distinct eqb (keys items).
Proof. apply (keys_dict_update items []). Qed.

Lemma dict_get_update (k : K) (items d : dict K V) :
  dict_get eqb k (dict_update eqb d items)
  = match find (fun e => eqb (fst e) k) (rev items) with
    | Some e => Some (snd e)
    | None => dict_get eqb k d
    end.
Proof.
  unfold dict_update. revert d.
  induction items as [|[k1 v1] items IH]; intros d; simpl; [reflexivity|].
  rewrite IH, find_app. simpl.
  destruct (find (fun e => eqb (fst e) k) (rev items)); [reflexivity|].
  rewrite (dict_get_set eqb norm eqb_norm). now destruct (eqb k1 k).
Qed.


End DictBuild.

(** ** Distinct elements *)

Section Distinct.
Context {K N : Type}.
Variable eqb : K -> K -> bool.
Variable norm : K -> N.
Hypothesis eqb_norm : forall a b, eqb a b = true <-> norm a = norm b.

Lemma add_keys_length (l acc : list K) :
  List.length (fold_left (add_key eqb) l acc) <= List.length acc + List.length l.
Proof.
  revert acc. induction l as [|k l IH]; intros acc; simpl; [lia|].
  specialize (IH (add_key eqb acc k)). unfold add_key in *.
  destruct (existsb (fun k' => eqb k' k) acc); [lia|].
  rewrite length_app in IH. simpl in IH. lia.
Qed.

Lemma distinct_length (l : list K) :
  List.length (distinct eqb l) <= List.length l.
Proof. apply (add_keys_length l []). Qed.

Lemma add_keys_In (l acc : list K) (x : K) :
  In x (fold_left (add_key eqb) l acc) -> In x acc \/ In x l.
Proof.
  revert acc. induction l as [|k l IH]; intros acc; simpl; [now left|].
  intros H. destruct (IH _ H) as [H'|H']; [|right; now right].
  unfold add_key in H'. destruct (existsb (fun k' => eqb k' k) acc); [now left|].
  apply in_app_or in H'. destruct H' as [H'|[<-|[]]]; [now left | right; now left].
Qed.

(** Every distinct element is an element. *)
Lemma distinct_In (l : list K) (x : K) : In x (distinct eqb l) -> In x l.
Proof. intros H. destruct (add_keys_In l [] x H) as [[]|H']. exact H'. Qed.

Lemma add_keys_keep (l acc : list K) (x : K) :
  In x acc -> In x (fold_left (add_key eqb) l acc).
Proof.
  revert acc. induction l as [|k l IH]; intros acc Hx; simpl; [exact Hx|].
  apply IH. unfold add_key. destruct (existsb (fun k' => eqb k' k) acc); [exact Hx|].
  apply in_or_app. now left.
Qed.

(** Every element equals one of the distinct ones. *)
Lemma add_keys_cover (l acc : list K) (x : K) :
  In x l -> exists y, In y (fold_left (add_key eqb) l acc) /\ eqb y x = true.
Proof.
  revert acc. induction l as [|k l IH]; intros acc; simpl; [intros []|].
  intros [->|Hx]; [|now apply IH].
  unfold add_key. destruct (existsb (fun k' => eqb k' x) acc) eqn:E.
  - apply existsb_exists in E. destruct E as [y [Hy Hyx]].
    exists y. split; [now apply add_keys_keep | exact Hyx].
  - exists x. split; [apply add_keys_keep, in_or_app; right; now left|].
    now apply eqb_norm.
Qed.

Lemma distinct_cover (l : list K) (x : K) :
  In x l -> exists y, In y (distinct eqb l) /\ eqb y x = true.
Proof. apply add_keys_cover. Qed.

Lemma pairs_snoc (acc : list K) (k : K) :
  ForallOrdPairs (fun a b => eqb a b = false) acc ->
  existsb (fun k' => eqb k' k) acc = false ->
  ForallOrdPairs (fun a b => eqb a b = false) (acc ++ [k]).
Proof.
  induction 1 as [|a acc Ha Hacc IH]; intros E; simpl.
  - repeat constructor.
  - simpl in E. apply orb_false_iff in E. destruct E as [Eak E].
    constructor; [|now apply IH].
    apply Forall_app. split; [exact Ha | now repeat constructor].
Qed.

(** No two distinct elements are equal. *)
Lemma add_keys_pairs (l acc : list K) :
  ForallOrdPairs (fun a b => eqb a b = false) acc ->
  ForallOrdPairs (fun a b => eqb a b = false) (fold_left (add_key eqb) l acc).
Proof.
  revert acc. induction l as [|k l IH]; intros acc Hacc; simpl; [exact Hacc|].
  apply IH. unfold add_key.
  destruct (existsb (fun k' => eqb k' k) acc) eqn:E; [exact Hacc|].
  now apply pairs_snoc.
Qed.

Lemma distinct_pairs (l : list K) :
  ForallOrdPairs (fun a b => eqb a b = false) (distinct eqb l).
Proof. apply add_keys_pairs. constructor. Qed.


End Distinct.

(** ** Equality of values and of row labels *)

Lemma path_eqb_eq (p q : PurePath) : path_eqb p q = true <-> p = q.
Proof.
  destruct p as [r1 ps1], q as [r2 ps2]. unfold path_eqb. simpl.
  rewrite andb_true_iff, Bool.eqb_true_iff.
  destruct (list_eq_dec string_dec ps1 ps2) as [->|Hne].
  - split; [intros [-> _]; reflexivity | intros [= -> ]; now split].
  - split; [intros [_ H]; discriminate | intros [= _ H]; contradiction].
Qed.

Lemma py_eqb_key (a b : value) : py_eqb a b = true <-> py_key a = py_key b.
Proof.
  destruct a as [x|x|x|x], b as [y|y|y|y]; simpl;
    try (split; [discriminate | intros H; discriminate H]).
  - rewrite Bool.eqb_true_iff. split; [now intros -> |].
    intros [= H]. destruct x, y; try reflexivity; discriminate.
  - rewrite Z.eqb_eq. split; [now intros -> | now intros [= ->]].
  - rewrite Z.eqb_eq. split; [now intros -> | now intros [= ->]].
  - rewrite Z.eqb_eq. split; [now intros -> | now intros [= ->]].
  - rewrite String.eqb_eq. split; [now intros -> | now intros [= ->]].
  - rewrite path_eqb_eq. split; [now intros -> | now intros [= ->]].
Qed.

Lemma tuple_eqb_key (a b : list value) :
  tuple_eqb a b = true <-> map py_key a = map py_key b.
Proof.
  revert b. induction a as [|x a IH]; intros [|y b]; simpl;
    try (split; [discriminate | intros H; discriminate H]).
  - split; reflexivity.
  - rewrite andb_true_iff, py_eqb_key, IH.
    split; [intros [-> ->]; reflexivity | intros [= -> ->]; now split].
Qed.

(** ** Row labels *)

Lemma render_pvalue_rendered (item : string * value) (x : value) :
  render_pvalue item = Ok x -> rendered item x.
Proof.
  destruct item as [pname pvalue]. unfold render_pvalue, rendered. simpl.
  destruct (String.eqb pname "rat" || String.eqb pname "python"); simpl.
  - destruct pvalue as [b|z|s|p]; simpl; try discriminate.
    intros [= <-]. now exists p.
  - now intros [= <-].
Qed.

Lemma render_pvalues_rendered (params : dict string value) (lbl : list value) :
  render_pvalues params = Ok lbl -> Forall2 rendered params lbl.
Proof.
  revert lbl. induction params as [|item params IH]; intros lbl; simpl.
  - intros [= <-]. constructor.
  - destruct (render_pvalue item) as [x|e] eqn:Ex; simpl; [|discriminate].
    destruct (render_pvalues params) as [xs|e]; simpl; [|discriminate].
    intros [= <-]. constructor; [now apply render_pvalue_rendered | now apply IH].
Qed.

(** Rendering raises nothing but the missing-attribute error. *)
Lemma render_pvalues_error (params : dict string value) (e : exn) :
  render_pvalues params = Raise e -> e = AttributeError.
Proof.
  induction params as [|[pname pvalue] params IH]; simpl; [discriminate|].
  unfold render_pvalue.
  destruct (negb (String.eqb pname "rat" || String.eqb pname "python")); simpl.
  - destruct (render_pvalues params) as [xs|e']; simpl; [discriminate|].
    intros [= <-]. now apply IH.
  - destruct pvalue as [b|z|s|p]; simpl; try (now intros [= <-]).
    destruct (render_pvalues params) as [xs|e']; simpl; [discriminate|].
    intros [= <-]. now apply IH.
Qed.

Lemma render_pvalues_no_stem (params : dict string value)
  (pname : string) (v : value) :
  In (pname, v) params ->
  pname = "rat"%string \/ pname = "python"%string ->
  (forall p, v <> VPath p) ->
  render_pvalues params = Raise AttributeError.
Proof.
  intros Hin Hname Hv.
  destruct (render_pvalues params) as [lbl|e] eqn:E.
  - exfalso. apply render_pvalues_rendered in E.
    clear -E Hin Hname Hv. induction E as [|item x params lbl Hr _ IH]; [destruct Hin|].
    destruct Hin as [->|Hin]; [|now apply IH].
    unfold rendered in Hr. simpl in Hr.
    destruct Hname as [-> | ->]; simpl in Hr; destruct Hr as [p [Hp _]];
      now apply (Hv p).
  - f_equal. now apply render_pvalues_error in E.
Qed.

Lemma render_pvalues_paths (params : dict string value) :
  (forall pname v, In (pname, v) params ->
                   pname = "rat"%string \/ pname = "python"%string ->
                   exists p, v = VPath p) ->
  exists lbl, render_pvalues params = Ok lbl.
Proof.
  induction params as [|[pname pvalue] params IH]; intros H; simpl.
  - now exists [].
  - destruct IH as [lbl Hl]; [intros n v Hin; apply H; now right|].
    rewrite Hl. unfold render_pvalue.
    destruct (String.eqb pname "rat" || String.eqb pname "python") eqn:E; simpl.
    + destruct (H pname pvalue (or_introl eq_refl)) as [p ->].
      * apply orb_true_iff in E. rewrite !String.eqb_eq in E. exact E.
      * simpl. now eexists.
    + now eexists.
Qed.

(** ** The sweep *)

Section SweepFacts.
Variable num : Type.
Variable mean_of : list num -> num.
Variable subprocess_run : history -> list string -> result string.
Variable read_csv : history -> string -> result (dataset num).

Local Abbreviation run_w := (run num subprocess_run read_csv).
Local Abbreviation sweep_step_w := (sweep_step num mean_of subprocess_run read_csv).
Local Abbreviation sweep_loop_w := (sweep_loop num mean_of subprocess_run read_csv).
Local Abbreviation pyrat_multiruns_w :=
  (pyrat_multiruns num mean_of subprocess_run read_csv).

Lemma run_ok (kw : dict string value) (h h2 : history)
  (csv_path : string) (stats : dataset num) :
  run_w kw h = (Ok (csv_path, stats), h2) ->
  h2 = h ++ [PyRatGame.cmd_line_args kw] /\ read_csv h2 csv_path = Ok stats.
Proof.
  unfold run, load_stats.
  destruct (subprocess_run h (PyRatGame.cmd_line_args kw)) as [out|e]; [|discriminate].
  destruct (PyRatGame._extract_csv_path out) as [p|e]; simpl; [|discriminate].
  destruct (read_csv (h ++ [PyRatGame.cmd_line_args kw]) p) as [ds|e] eqn:E;
    simpl; [|discriminate].
  intros [= <- <- <-]. now split.
Qed.

Lemma sweep_step_ok (link : bool) (params : dict string value)
  (results res2 : dict (list value) (series num)) (st st2 : state) :
  sweep_step_w link params results st = (Ok res2, st2) ->
  exists e, registered mean_of read_csv params e
            /\ res2 = dict_set tuple_eqb (fst e) (snd e) results.
Proof.
  unfold sweep_step.
  destruct (run num subprocess_run read_csv
              (set_params link params (kwargs st)) (log st))
    as [[[csv_path stats]|e] h] eqn:Hrun; simpl; [|discriminate].
  destruct (render_pvalues params) as [lbl|e] eqn:Hl; simpl; [|discriminate].
  intros [= <- <-]. apply run_ok in Hrun. destruct Hrun as [_ Hcsv].
  exists (lbl, mean mean_of stats). split; [|reflexivity].
  split; [exact Hl | now exists h, csv_path, stats].
Qed.

(** A combination with an agent or interpreter that has no stem stops the
    sweep: its run is made, then the label cannot be rendered. *)
Lemma sweep_step_no_stem (link : bool) (params : dict string value)
  (results : dict (list value) (series num)) (st : state) :
  render_pvalues params = Raise AttributeError ->
  let kw := set_params link params (kwargs st) in
  (exists e st2, sweep_step_w link params results st = (Raise e, st2))
  /\ (forall cs h,
         run_w kw (log st) = (Ok cs, h) ->
         h = log st ++ [PyRatGame.cmd_line_args kw]
         /\ sweep_step_w link params results st
            = (Raise AttributeError, {| kwargs := kw; log := h |})).
Proof.
  intros Hl kw. unfold sweep_step. fold kw.
  destruct (run_w kw (log st)) as [[cs|e] h] eqn:Hrun; simpl; rewrite ?Hl; simpl.
  - split; [now eexists; eexists|].
    intros cs' h' [= <- <-]. split; [|reflexivity].
    destruct cs as [csv_path stats]. now apply run_ok in Hrun.
  - split; [now eexists; eexists | discriminate].
Qed.

Lemma sweep_loop_ok (link : bool) (combos : list (dict string value)) :
  forall (results res2 : dict (list value) (series num)) (st st2 : state),
    sweep_loop_w link combos results st = (Ok res2, st2) ->
    exists entries,
      Forall2 (registered mean_of read_csv) combos entries
      /\ res2 = dict_update tuple_eqb results entries.
Proof.
  induction combos as [|params combos IH]; intros results res2 st st2; simpl.
  - intros [= <- _]. exists []. split; [constructor | reflexivity].
  -       destruct (sweep_step_w link params results st) as [[res1|e] st1] eqn:Hstep;
      [|discriminate].
    intros Hloop. apply sweep_step_ok in Hstep. destruct Hstep as [e [He ->]].
    destruct (IH _ _ _ _ Hloop) as [entries [Hreg ->]].
    exists (e :: entries). split; [now constructor | reflexivity].
Qed.

Lemma sweep_loop_no_stem (link : bool) (combos : list (dict string value))
  (params : dict string value) :
  In params combos ->
  render_pvalues params = Raise AttributeError ->
  forall results st, exists e st2, sweep_loop_w link combos results st = (Raise e, st2).
Proof.
  intros Hin Hl. induction combos as [|c combos IH]; [destruct Hin|].
  intros results st. simpl.
  destruct Hin as [->|Hin].
  - destruct (sweep_step_no_stem link params results st Hl) as [[e [st2 ->]] _].
    now exists e, st2.
  - destruct (sweep_step_w link c results st) as [[res1|e] st1].
    + now apply IH.
    + now exists e, st1.
Qed.

Lemma pyrat_multiruns_ok (fixed_params : dict string value)
  (grid_params : dict string (list value)) (link : bool)
  (tbl : table num) (st : state) :
  pyrat_multiruns_w fixed_params grid_params link = (Ok tbl, st) ->
  exists entries,
    Forall2 (registered mean_of read_csv) (dict_product grid_params) entries
    /\ rows tbl = dict_of_items tuple_eqb entries
    /\ index_names tbl = keys grid_params.
Proof.
  unfold pyrat_multiruns.
  destruct (sweep_loop num mean_of subprocess_run read_csv link
              (dict_product grid_params) []
              {| kwargs := PyRatGame.merged_kwargs fixed_params; log := [] |})
    as [[results|e] st1] eqn:Hloop; simpl; [|discriminate].
  unfold frame_of_results.
  destruct (Nat.eqb (List.length (keys grid_params)) (index_levels results));
    [|discriminate].
  intros [= <- _]. apply sweep_loop_ok in Hloop.
  destruct Hloop as [entries [Hreg ->]]. now exists entries.
Qed.
End SweepFacts.

(** ** Columns of the table *)

Lemma add_name_known (acc : list string) (c : string) :
  In c acc -> add_name acc c = acc.
Proof.
  intros Hin. unfold add_name.
  replace (existsb (String.eqb c) acc) with true; [reflexivity|].
  symmetry. apply existsb_exists. exists c. split; [exact Hin | apply String.eqb_refl].
Qed.

Lemma add_name_new (acc : list string) (c : string) :
  ~ In c acc -> add_name acc c = acc ++ [c].
Proof.
  intros Hn. unfold add_name.
  destruct (existsb (String.eqb c) acc) eqn:E; [|reflexivity].
  apply existsb_exists in E. destruct E as [x [Hx Hcx]].
  apply String.eqb_eq in Hcx. subst x. contradiction.
Qed.

Lemma add_names_known (l acc : list string) :
  incl l acc -> fold_left add_name l acc = acc.
Proof.
  induction l as [|c l IH]; intros Hincl; simpl; [reflexivity|].
  rewrite add_name_known; [|apply Hincl; now left].
  apply IH. intros x Hx. apply Hincl. now right.
Qed.

Lemma add_names_new (l acc : list string) :
  NoDup (acc ++ l) -> fold_left add_name l acc = acc ++ l.
Proof.
  revert acc. induction l as [|c l IH]; intros acc Hnd; simpl.
  - now rewrite app_nil_r.
  - rewrite add_name_new.
    + rewrite IH; rewrite <- app_assoc; simpl; [reflexivity | exact Hnd].
    + apply NoDup_remove_2 in Hnd. intros Hin. apply Hnd, in_or_app. now left.
Qed.



Lemma Forall2_registered_labels {num : Type} (mean_of : list num -> num)
  (read_csv : history -> string -> result (dataset num))
  (combos : list (dict string value)) (entries : dict (list value) (series num)) :
  Forall2 (registered mean_of read_csv) combos entries ->
  Forall2 (fun params lbl => render_pvalues params = Ok lbl) combos (keys entries).
Proof.
  induction 1 as [|c e combos entries [Hl _] _ IH]; simpl; constructor; assumption.
Qed.



(** ** The table of a sweep *)




Lemma dict_get_of_items {V : Type} (lbl : list value) (entries : dict (list value) V) :
  dict_get tuple_eqb lbl (dict_of_items tuple_eqb entries) = last_entry lbl entries.
Proof.
  unfold dict_of_items, last_entry.
  rewrite (dict_get_update tuple_eqb (map py_key) tuple_eqb_key).
  now destruct (find (fun e => tuple_eqb (fst e) lbl) (rev entries)).
Qed.

Section SweepEntries.
Variable num : Type.
Variable mean_of : list num -> num.
Variable subprocess_run : history -> list string -> result string.
Variable read_csv : history -> string -> result (dataset num).

Local Abbreviation recorded_w := (recorded mean_of subprocess_run read_csv).

Lemma sweep_loop_recorded (link : bool) (combos : list (dict string value)) :
  forall (results res2 : dict (list value) (series num)) (st st2 : state),
    sweep_loop num mean_of subprocess_run read_csv link combos results st
    = (Ok res2, st2) ->
    exists entries,
      recorded_w link combos (kwargs st) (log st) entries
      /\ res2 = dict_update tuple_eqb results entries.
Proof.
  induction combos as [|c combos IH]; intros results res2 st st2.
  - simpl. intros [= <- _]. exists []. now split.
  - cbn [sweep_loop]. unfold sweep_step.
    destruct (run num subprocess_run read_csv
                (set_params link c (kwargs st)) (log st))
      as [[[csv_path stats]|e] h] eqn:Hrun; cbn [bind snd]; [|discriminate].
    destruct (render_pvalues c) as [lbl|e] eqn:Hl; cbn [bind]; [|discriminate].
    intros Hloop. destruct (IH _ _ _ _ Hloop) as [entries [Hrec ->]].
    cbn [kwargs log] in Hrec.
    pose proof (run_ok _ _ _ _ _ _ _ _ Hrun) as [Hh _]. subst h.
    exists ((lbl, mean mean_of stats) :: entries). split; [|reflexivity].
    cbn [recorded]. exists csv_path, stats. now repeat split.
Qed.

Lemma recorded_labels (link : bool) (combos : list (dict string value)) :
  forall kw h (entries : dict (list value) (series num)),
    recorded_w link combos kw h entries ->
    Forall2 (fun params lbl => render_pvalues params = Ok lbl)
      combos (keys entries).
Proof.
  induction combos as [|c combos IH]; intros kw h [|e entries]; simpl;
    try contradiction.
  - constructor.
  - intros (csv_path & stats & _ & Hl & _ & Hrec).
    constructor; [exact Hl | now apply (IH _ _ _ Hrec)].
Qed.

Lemma pyrat_multiruns_recorded (fixed_params : dict string value)
  (grid_params : dict string (list value)) (link : bool)
  (tbl : table num) (st : state) :
  pyrat_multiruns num mean_of subprocess_run read_csv
    fixed_params grid_params link = (Ok tbl, st) ->
  exists entries,
    recorded_w link (dict_product grid_params)
      (PyRatGame.merged_kwargs fixed_params) [] entries
    /\ rows tbl = dict_of_items tuple_eqb entries.
Proof.
  unfold pyrat_multiruns.
  destruct (sweep_loop num mean_of subprocess_run read_csv link
              (dict_product grid_params) []
              {| kwargs := PyRatGame.merged_kwargs fixed_params; log := [] |})
    as [[results|e] st1] eqn:Hloop; simpl; [|discriminate].
  unfold frame_of_results.
  destruct (Nat.eqb (List.length (keys grid_params)) (index_levels results));
    [|discriminate].
  intros [= <- _]. apply sweep_loop_recorded in Hloop.
  destruct Hloop as [entries [Hrec ->]]. now exists entries.
Qed.
End SweepEntries.

Lemma find_all_false {A : Type} (f : A -> bool) (l : list A) :
  (forall x, In x l -> f x = false) -> find f l = None.
Proof.
  induction l as [|a l IH]; intros H; [reflexivity|].
  simpl. rewrite (H a (or_introl eq_refl)). apply IH.
  intros x Hx. apply H. now right.
Qed.

Lemma last_entry_split {V : Type} (lbl : list value)
  (before after : dict (list value) V) (e : list value * V) :
  tuple_eqb (fst e) lbl = true ->
  Forall (fun e' => tuple_eqb (fst e') lbl = false) after ->
  last_entry lbl (before ++ e :: after) = Some (snd e).
Proof.
  intros He Hafter. unfold last_entry.
  rewrite rev_app_distr. cbn [rev]. rewrite <- app_assoc, find_app.
  replace (find (fun e' => tuple_eqb (fst e') lbl) (rev after)) with (@None (list value * V)).
  - cbn [app find]. now rewrite He.
  - symmetry. apply find_all_false. intros x Hx. apply in_rev in Hx.
    rewrite Forall_forall in Hafter. now apply Hafter.
Qed.

(** C9. The rows are accumulated in a dictionary keyed by the rendered
    tuple: the table is the dictionary built, in order, from one entry per
    combination, the entry of a combination being its rendered tuple with
    the means of the dataset its own run returned.  Looking a label up
    gives the entry of the last combination rendered to an equal tuple,
    whatever entries came before it: a later combination overwrites an
    earlier one.  The row labels are the distinct rendered tuples: no two
    of them are equal, every rendered tuple equals one of them, and they
    are never more than the combinations.  They can be fewer: two
    interpreters with the same file name give two combinations and one row,
    holding the means of the second run. *)
Theorem sweep_rows_overwrite :
  (forall (num : Type) (mean_of : list num -> num)
          (subprocess_run : history -> list string -> result string)
          (read_csv : history -> string -> result (dataset num))
          (fixed_params : dict string value)
          (grid_params : dict string (list value))
          (link_height_width : bool) (tbl : table num) (st : state),
      pyrat_multiruns num mean_of subprocess_run read_csv
        fixed_params grid_params link_height_width = (Ok tbl, st) ->
      exists entries,
        recorded mean_of subprocess_run read_csv link_height_width
          (dict_product grid_params) (PyRatGame.merged_kwargs fixed_params)
          [] entries
        /\ rows tbl = dict_of_items tuple_eqb entries
        /\ (forall lbl,
               dict_get tuple_eqb lbl (rows tbl) = last_entry lbl entries)
        /\ (forall before e after lbl,
               entries = before ++ e :: after ->
               tuple_eqb (fst e) lbl = true ->
               Forall (fun e' => tuple_eqb (fst e') lbl = false) after ->
               dict_get tuple_eqb lbl (rows tbl) = Some (snd e))
        /\ keys (rows tbl) = distinct tuple_eqb (keys entries)
        /\ ForallOrdPairs (fun a b => tuple_eqb a b = false) (keys (rows tbl))
        /\ (forall lbl,
               In lbl (keys entries) ->
               exists k, In k (keys (rows tbl)) /\ tuple_eqb k lbl = true)
        /\ List.length (rows tbl) <= List.length (dict_product grid_params))
  /\ (example_sweep interpreters_grid
      = (Ok (table_of (example_sweep interpreters_grid)),
         snd (example_sweep interpreters_grid))
      /\ List.length (dict_product interpreters_grid) = 2
      /\ rows (table_of (example_sweep interpreters_grid))
         = [([VStr "python3"], [("win_rat", 1%Z); ("moves_rat", 12%Z)])]).
Proof.
  split.
  - intros num mean_of subprocess_run read_csv fixed_params grid_params
      link_height_width tbl st Hrun.
    destruct (pyrat_multiruns_recorded _ _ _ _ _ _ _ _ _ Hrun)
      as (entries & Hrec & Hrows).
    assert (Hkeys : keys (rows tbl) = distinct tuple_eqb (keys entries)).
    { rewrite Hrows. apply keys_dict_of_items. }
    assert (Hget : forall lbl,
               dict_get tuple_eqb lbl (rows tbl) = last_entry lbl entries).
    { intros lbl. rewrite Hrows. apply dict_get_of_items. }
    exists entries. repeat split; try assumption.
    + intros before e after lbl -> He Hafter. rewrite Hget.
      now apply last_entry_split.
    + rewrite Hkeys. apply distinct_pairs.
    + rewrite Hkeys. apply (distinct_cover tuple_eqb (map py_key) tuple_eqb_key).
    + replace (List.length (rows tbl)) with (List.length (keys (rows tbl)));
        [|unfold keys; now rewrite length_map].
      rewrite Hkeys, (Forall2_length (recorded_labels _ _ _ _ _ _ _ _ _ Hrec)).
      apply distinct_length.
  - vm_compute. repeat split.
Qed.

Lemma sweep_rows_overwrite_witness :
  exists entries,
    recorded example_mean_of (example_world_stdout announce) example_world_csv
      true (dict_product interpreters_grid)
      (PyRatGame.merged_kwargs [("pieces", VInt 1)]) [] entries
    /\ rows (table_of (example_sweep interpreters_grid))
       = dict_of_items tuple_eqb entries
    /\ (forall lbl,
           dict_get tuple_eqb lbl (rows (table_of (example_sweep interpreters_grid)))
           = last_entry lbl entries)
    /\ (forall before e after lbl,
           entries = before ++ e :: after ->
           tuple_eqb (fst e) lbl = true ->
           Forall (fun e' => tuple_eqb (fst e') lbl = false) after ->
           dict_get tuple_eqb lbl (rows (table_of (example_sweep interpreters_grid)))
           = Some (snd e))
    /\ keys (rows (table_of (example_sweep interpreters_grid)))
       = distinct tuple_eqb (keys entries)
    /\ ForallOrdPairs (fun a b => tuple_eqb a b = false)
         (keys (rows (table_of (example_sweep interpreters_grid))))
    /\ (forall lbl,
           In lbl (keys entries) ->
           exists k,
             In k (keys (rows (table_of (example_sweep interpreters_grid))))
             /\ tuple_eqb k lbl = true)
    /\ List.length (rows (table_of (example_sweep interpreters_grid)))
       <= List.length (dict_product interpreters_grid).
Proof.
  apply (proj1 sweep_rows_overwrite Z example_mean_of
           (example_world_stdout announce) example_world_csv
           [("pieces", VInt 1)] interpreters_grid true
           (table_of (example_sweep interpreters_grid))
           (snd (example_sweep interpreters_grid))).
  vm_compute. reflexivity.
Defined.

(** C10. A combination whose value under ["rat"] or ["python"] is not a
    path cannot be rendered: rendering raises the missing-attribute error.
    The sweep step for it never returns a row; when its run succeeds, the
    invocation has been made and logged before the step raises that error;
    and a sweep that contains the combination ends in an error.  When
    every value under these two names is a path, rendering returns a
    label. *)
Theorem stem_rendering_spec :
  (forall (params : dict string value) (pname : string) (v : value),
      In (pname, v) params ->
      pname = "rat"%string \/ pname = "python"%string ->
      (forall p, v <> VPath p) ->
      render_pvalues params = Raise AttributeError
      /\ forall (num : Type) (mean_of : list num -> num)
                (subprocess_run : history -> list string -> result string)
                (read_csv : history -> string -> result (dataset num))
                (link : bool),
          (forall results st,
              let kw := set_params link params (kwargs st) in
              (exists e st2,
                  sweep_step num mean_of subprocess_run read_csv
                    link params results st = (Raise e, st2))
              /\ (forall cs h,
                     run num subprocess_run read_csv kw (log st) = (Ok cs, h) ->
                     h = log st ++ [PyRatGame.cmd_line_args kw]
                     /\ sweep_step num mean_of subprocess_run read_csv
                          link params results st
                        = (Raise AttributeError, {| kwargs := kw; log := h |})))
          /\ (forall combos results st,
                 In params combos ->
                 exists e st2,
                   sweep_loop num mean_of subprocess_run read_csv
                     link combos results st = (Raise e, st2)))
  /\ (forall params : dict string value,
         (forall pname v,
             In (pname, v) params ->
             pname = "rat"%string \/ pname = "python"%string ->
             exists p, v = VPath p) ->
         exists lbl, render_pvalues params = Ok lbl).
Proof.
  split.
  - intros params pname v Hin Hname Hv.
    pose proof (render_pvalues_no_stem params pname v Hin Hname Hv) as Hl.
    split; [exact Hl|].
    intros num mean_of subprocess_run read_csv link. split.
    + intros results st.
      exact (sweep_step_no_stem num mean_of subprocess_run read_csv
               link params results st Hl).
    + intros combos results st Hc.
      exact (sweep_loop_no_stem num mean_of subprocess_run read_csv
               link combos params Hc Hl results st).
  - exact render_pvalues_paths.
Qed.

Lemma stem_rendering_spec_witness :
  render_pvalues text_agent_params = Raise AttributeError
  /\ sweep_step Z example_mean_of (example_world_stdout announce)
       example_world_csv false text_agent_params [] example_state
     = (Raise AttributeError,
        {| kwargs := set_params false text_agent_params (kwargs example_state);
           log := [["python"; "pyrat.py"; "--synchronous"; "--nodrawing";
                    "--width"; "5"; "--rat"; "AIs/lab3_bfs.py"]] |}).
Proof.
  destruct (proj1 stem_rendering_spec text_agent_params
              "rat"%string (VStr "AIs/lab3_bfs.py")) as [Hl Hsweep].
  - simpl. right. left. reflexivity.
  - left. reflexivity.
  - intros p. discriminate.
  - split; [exact Hl|].
    destruct (Hsweep Z example_mean_of (example_world_stdout announce)
                example_world_csv false) as [Hstep _].
    destruct (Hstep [] example_state) as [_ Hrun].
    destruct (Hrun ("saves/1604752342.csv"%string,
                    [("win_rat", [1; 1]%Z); ("moves_rat", [10; 12]%Z)])
                (log example_state
                   ++ [PyRatGame.cmd_line_args
                         (set_params false text_agent_params (kwargs example_state))])
                eq_refl) as [_ Hres].
    exact Hres.
Defined.

(** * Further properties of the code *)

(** ** The combination generator: no merging, order, empty lists *)

Lemma NoDup_cons_map {A : Type} (a : A) (l : list (list A)) :
  NoDup l -> NoDup (map (cons a) l).
Proof.
  induction 1 as [|x l Hx _ IH]; simpl; constructor; [|exact IH].
  intros Hin. apply in_map_iff in Hin. destruct Hin as [y [[= ->] Hy]].
  contradiction.
Qed.

Lemma cartesian_NoDup {V : Type} (g : dict string (list V)) :
  Forall (@NoDup V) (values g) -> NoDup (cartesian g).
Proof.
  induction g as [|[k vs] g IH]; simpl; intros Hall.
  - repeat constructor. intros [].
  - apply Forall_cons_iff in Hall. destruct Hall as [Hvs Hg].
    specialize (IH Hg). clear Hg.
    induction Hvs as [|v vs Hv _ IHvs]; simpl; [constructor|].
    apply NoDup_app; [now apply NoDup_cons_map | exact IHvs |].
    intros m Hm Hm'. apply in_map_iff in Hm. destruct Hm as [m0 [<- _]].
    apply in_flat_map in Hm'. destruct Hm' as [v' [Hv' Hin]].
    apply in_map_iff in Hin. destruct Hin as [m1 [[= -> _] _]].
    contradiction.
Qed.

(** X1. When no candidate list repeats a value, no two yielded
    combinations are the same mapping: the generator neither merges nor
    repeats combinations. *)
Theorem dict_product_NoDup {V : Type} (G : dict string (list V)) :
  dict_wf G -> Forall (@NoDup V) (values G) -> NoDup (dict_product G).
Proof.
  intros Hwf Hall. rewrite (dict_product_cartesian G Hwf).
  now apply cartesian_NoDup.
Qed.

Lemma dict_product_NoDup_witness : NoDup (dict_product widths_grid).
Proof.
  apply dict_product_NoDup.
  - unfold dict_wf. simpl. repeat constructor; simpl; intuition discriminate.
  - simpl. repeat constructor; simpl; intuition discriminate.
Defined.

(** Blocks of equal length laid end to end: the element at index [i] is in
    block [i / n] at offset [i mod n]. *)
Lemma nth_error_blocks {A B C : Type} (f : A -> B -> C) (l : list B)
  (vs : list A) :
  forall i,
    nth_error (flat_map (fun v => map (f v) l) vs) i
    = match nth_error vs (i / List.length l),
            nth_error l (i mod List.length l) with
      | Some v, Some m => Some (f v m)
      | _, _ => None
      end.
Proof.
  destruct l as [|b l'].
  - intros i. simpl.
    replace (flat_map (fun _ : A => @nil C) vs) with (@nil C).
    + destruct i, vs; reflexivity.
    + induction vs; simpl; auto.
  - remember (b :: l') as l eqn:El. remember (List.length l) as n eqn:En.
    assert (Hn : n <> 0) by (subst; simpl; lia).
    clear El. induction vs as [|v vs IH]; intros i; cbn [flat_map].
    + rewrite !nth_error_nil. reflexivity.
    + destruct (Nat.lt_ge_cases i n) as [Hlt|Hge].
      * rewrite nth_error_app1 by (rewrite length_map, <- En; exact Hlt).
        rewrite nth_error_map, Nat.div_small, Nat.mod_small by exact Hlt.
        simpl. now destruct (nth_error l i).
      * rewrite nth_error_app2 by (rewrite length_map, <- En; exact Hge).
        rewrite length_map, <- En, IH.
        assert (Hd : i / n = S ((i - n) / n)).
        { replace i with ((i - n) + 1 * n) at 1 by lia.
          rewrite Nat.div_add by exact Hn. lia. }
        assert (Hm : i mod n = (i - n) mod n).
        { replace i with ((i - n) + 1 * n) at 1 by lia.
          now rewrite Nat.Div0.mod_add. }
        rewrite Hd, Hm. reflexivity.
Qed.

(** X2. The order of the sequence: in the combinations of a grid whose
    first key is [k], the combination at index [i] gives [k] the candidate
    at index [i / n] and is, for the other keys, the combination at index
    [i mod n] of the rest of the grid, [n] being the number of combinations
    of the rest: the last key varies fastest. *)
Theorem dict_product_nth {V : Type} (k : string) (vs : list V)
  (G : dict string (list V)) (i : nat) :
  dict_wf ((k, vs) :: G) ->
  nth_error (dict_product ((k, vs) :: G)) i
  = match nth_error vs (i / List.length (dict_product G)),
          nth_error (dict_product G) (i mod List.length (dict_product G)) with
    | Some v, Some m => Some ((k, v) :: m)
    | _, _ => None
    end.
Proof.
  intros Hwf.
  assert (Hwf' : dict_wf G) by (now inversion Hwf).
  rewrite (dict_product_cartesian _ Hwf), (dict_product_cartesian _ Hwf').
  simpl. apply (nth_error_blocks (fun v m => (k, v) :: m)).
Qed.

Lemma widths_grid_wf : dict_wf widths_grid.
Proof.
  unfold dict_wf. simpl. repeat constructor; simpl; intuition discriminate.
Qed.

Lemma dict_product_nth_witness :
  dict_wf widths_grid
  /\ nth_error (dict_product widths_grid) 3
     = Some [("width"%string, VInt 10); ("pieces"%string, VInt 41)].
Proof.
  split; [exact widths_grid_wf|].
  unfold widths_grid.
  rewrite (dict_product_nth "width" [VInt 5; VInt 10; VInt 15]
             [("pieces", [VInt 1; VInt 41])] 3 widths_grid_wf).
  reflexivity.
Defined.

(** ** The configuration: defaults, flags, assignments *)

Lemma dict_get_absent_key {V : Type} (k : string) (d : dict string V) :
  ~ In k (keys d) -> dict_get String.eqb k d = None.
Proof.
  intros Hk. apply dict_get_absent. intros k' Hk'.
  apply String.eqb_neq. intros ->. contradiction.
Qed.

Lemma dict_get_present {V : Type} (k : string) (v : V) (d : dict string V) :
  dict_wf d -> In (k, v) d -> dict_get String.eqb k d = Some v.
Proof.
  induction d as [|[k0 v0] d IH]; intros Hwf Hin; [destruct Hin|].
  inversion Hwf as [|? ? Hk0 Hd]; subst. simpl.
  destruct Hin as [[= -> ->]|Hin]; [now rewrite String.eqb_refl|].
  destruct (String.eqb_spec k0 k) as [->|_]; [|now apply IH].
  exfalso. apply Hk0. apply (in_map fst) in Hin. exact Hin.
Qed.

(** Lookup in [{**d, **items}]: the items win. *)
Lemma dict_get_merge {V : Type} (k : string) (items : dict string V) :
  dict_wf items ->
  forall d,
    dict_get String.eqb k (dict_update String.eqb d items)
    = match dict_get String.eqb k items with
      | Some v => Some v
      | None => dict_get String.eqb k d
      end.
Proof.
  unfold dict_update.
  induction items as [|[k1 v1] items IH]; intros Hwf d; [reflexivity|].
  inversion Hwf as [|? ? Hk1 Hitems]; subst. simpl.
  rewrite (IH Hitems), (dict_get_set String.eqb id string_eqb_norm).
  destruct (String.eqb_spec k1 k) as [->|_]; [|reflexivity].
  now rewrite (dict_get_absent_key k items Hk1).
Qed.

(** X3. A driver built with named options holds, for every name, the
    caller's value when the caller gave one, and otherwise the default:
    [True] for ["synchronous"] and ["nodrawing"], nothing for other
    names. *)
Theorem init_kwargs_lookup (kwargs : dict string value) (k : string) :
  dict_wf kwargs ->
  PyRatGame.getattr_kwargs (PyRatGame.__init__ kwargs)
  = Ok (PyRatGame.ODict (PyRatGame.merged_kwargs kwargs))
  /\ dict_get String.eqb k (PyRatGame.merged_kwargs kwargs)
     = match dict_get String.eqb k kwargs with
       | Some v => Some v
       | None =>
           if String.eqb k "synchronous" || String.eqb k "nodrawing"
           then Some (VBool true) else None
       end.
Proof.
  intros Hwf. split; [reflexivity|].
  unfold PyRatGame.merged_kwargs. rewrite (dict_get_merge k kwargs Hwf).
  destruct (dict_get String.eqb k kwargs); [reflexivity|].
  unfold PyRatGame.default_kwargs. cbn [dict_get].
  rewrite (String.eqb_sym k "synchronous"), (String.eqb_sym k "nodrawing").
  destruct (String.eqb "synchronous" k); [reflexivity|].
  now destruct (String.eqb "nodrawing" k).
Qed.

Lemma init_kwargs_lookup_witness :
  PyRatGame.getattr_kwargs
    (PyRatGame.__init__ [("width", VInt 13); ("nodrawing", VBool false)])
  = Ok (PyRatGame.ODict
          (PyRatGame.merged_kwargs [("width", VInt 13); ("nodrawing", VBool false)]))
  /\ dict_get String.eqb "nodrawing"
       (PyRatGame.merged_kwargs [("width", VInt 13); ("nodrawing", VBool false)])
     = Some (VBool false).
Proof.
  apply (init_kwargs_lookup [("width", VInt 13); ("nodrawing", VBool false)]
           "nodrawing").
  unfold dict_wf. simpl. repeat constructor; simpl; intuition discriminate.
Defined.

(** X4. When the caller names neither default, the command line of the
    new driver is the interpreter, the entry point, the two default flags
    [--synchronous] and [--nodrawing], then the caller's options in the
    order given. *)
Theorem init_cmd_line_defaults (kwargs : dict string value) :
  dict_wf kwargs ->
  ~ In "synchronous"%string (keys kwargs) ->
  ~ In "nodrawing"%string (keys kwargs) ->
  PyRatGame.cmd_line_args (PyRatGame.merged_kwargs kwargs)
  = ["python"; "pyrat.py"; "--synchronous"; "--nodrawing"]
      ++ flat_map flag_tokens kwargs.
Proof.
  intros Hwf Hs Hn. unfold PyRatGame.merged_kwargs.
  rewrite (dict_update_fresh String.eqb string_eqb_spec).
  - unfold PyRatGame.cmd_line_args. rewrite cmd_line_args_loop. reflexivity.
  - simpl. constructor; [|constructor; [|exact Hwf]].
    + simpl. intros [H|H]; [discriminate | contradiction].
    + exact Hn.
Qed.

Lemma init_cmd_line_defaults_witness :
  PyRatGame.cmd_line_args
    (PyRatGame.merged_kwargs [("width", VInt 13); ("tests", VInt 10)])
  = ["python"; "pyrat.py"; "--synchronous"; "--nodrawing"]
      ++ ["--width"; "13"; "--tests"; "10"].
Proof.
  apply (init_cmd_line_defaults [("width", VInt 13); ("tests", VInt 10)]).
  - unfold dict_wf. simpl. repeat constructor; simpl; intuition discriminate.
  - simpl. intuition discriminate.
  - simpl. intuition discriminate.
Defined.

Lemma flag_tokens_length (item : string * value) :
  1 <= List.length (flag_tokens item) <= 2.
Proof.
  destruct item as [name [[|]| | |]]; simpl; lia.
Qed.

Lemma flat_map_flag_tokens_length (kw : dict string value) :
  List.length kw <= List.length (flat_map flag_tokens kw) <= 2 * List.length kw.
Proof.
  induction kw as [|item kw IH]; simpl; [lia|].
  rewrite length_app. pose proof (flag_tokens_length item). lia.
Qed.

(** X5. Every configuration entry puts its flag on the command line,
    whatever its value, and every value other than the boolean [True] puts
    its string form there too; so setting an option to [False] does not
    drop its flag, it passes [--name False].  The command line has between
    one and two tokens per entry after the first two. *)
Theorem cmd_line_args_flags (kw : dict string value) (name : string) (v : value) :
  In (name, v) kw ->
  In ("--" ++ name)%string (PyRatGame.cmd_line_args kw)
  /\ (is_bool_true v = false -> In (py_str v) (PyRatGame.cmd_line_args kw))
  /\ flag_tokens (name, VBool false) = [("--" ++ name)%string; "False"%string]
  /\ 2 + List.length kw <= List.length (PyRatGame.cmd_line_args kw)
     <= 2 + 2 * List.length kw.
Proof.
  intros Hin. unfold PyRatGame.cmd_line_args. rewrite cmd_line_args_loop.
  assert (Htok : forall t, In t (flag_tokens (name, v)) ->
                           In t (["python"; "pyrat.py"]%string
                                   ++ flat_map flag_tokens kw)).
  { intros t Ht. apply in_or_app. right. apply in_flat_map.
    now exists (name, v). }
  split; [|split; [|split]].
  - apply Htok. destruct v as [[|]| | |]; simpl; auto.
  - intros Hv. apply Htok. destruct v as [[|]| | |]; simpl; auto; discriminate.
  - reflexivity.
  - rewrite length_app. simpl List.length at 2 4.
    pose proof (flat_map_flag_tokens_length kw). lia.
Qed.

Lemma cmd_line_args_flags_witness :
  In "--nodrawing"%string
     (PyRatGame.cmd_line_args
        (PyRatGame.merged_kwargs [("nodrawing", VBool false)]))
  /\ In "False"%string
        (PyRatGame.cmd_line_args
           (PyRatGame.merged_kwargs [("nodrawing", VBool false)])).
Proof.
  destruct (cmd_line_args_flags
              (PyRatGame.merged_kwargs [("nodrawing", VBool false)])
              "nodrawing" (VBool false)) as [Hflag [Hval _]].
  - simpl. right. left. reflexivity.
  - split; [exact Hflag | exact (Hval eq_refl)].
Defined.

Lemma dict_set_wf {V : Type} (k : string) (v : V) (d : dict string V) :
  dict_wf d -> dict_wf (dict_set String.eqb k v d).
Proof.
  unfold dict_wf. intros Hwf. rewrite keys_dict_set. unfold add_key.
  destruct (existsb (fun k' => String.eqb k' k) (keys d)) eqn:E; [exact Hwf|].
  apply NoDup_app; [exact Hwf | repeat constructor; intros [] |].
  intros a Ha [<-|[]].
  assert (Ht : existsb (fun k' => String.eqb k' k) (keys d) = true).
  { apply existsb_exists. exists k. split; [exact Ha | apply String.eqb_refl]. }
  congruence.
Qed.

Lemma dict_update_wf {V : Type} (items d : dict string V) :
  dict_wf d -> dict_wf (dict_update String.eqb d items).
Proof.
  unfold dict_update. revert d.
  induction items as [|[k v] items IH]; intros d Hwf; [exact Hwf|].
  simpl. apply IH. now apply dict_set_wf.
Qed.

Lemma set_params_wf (link : bool) (params kw : dict string value) :
  dict_wf kw -> dict_wf (set_params link params kw).
Proof.
  unfold set_params. revert kw.
  induction params as [|[pname pvalue] params IH]; intros kw Hwf; [exact Hwf|].
  cbn [fold_left]. apply IH. unfold set_param.
  destruct (link && String.eqb pname "width"),
           (link && String.eqb pname "height");
    repeat apply dict_set_wf; exact Hwf.
Qed.

Lemma dict_set_twice {V : Type} (k : string) (v1 v2 : V) (d : dict string V) :
  dict_set String.eqb k v2 (dict_set String.eqb k v1 d) = dict_set String.eqb k v2 d.
Proof.
  induction d as [|[k0 v0] d IH]; simpl.
  - now rewrite String.eqb_refl.
  - destruct (String.eqb k0 k) eqn:E; simpl; rewrite E; [reflexivity|].
    now rewrite IH.
Qed.

Lemma dict_set_replace {V : Type} (k : string) (v old : V)
  (before after : dict string V) :
  ~ In k (keys before) ->
  dict_set String.eqb k v (before ++ (k, old) :: after) = before ++ (k, v) :: after.
Proof.
  induction before as [|[k0 v0] before IH]; simpl; intros Hk.
  - now rewrite String.eqb_refl.
  - destruct (String.eqb_spec k0 k) as [->|_]; [exfalso; apply Hk; now left|].
    rewrite IH; [reflexivity|]. intros H. apply Hk. now right.
Qed.

Lemma constructed_kwargs_wf (self : PyRatGame.instance) :
  PyRatGame.constructed self ->
  exists kw,
    PyRatGame.instance_dict self = [("kwargs"%string, PyRatGame.ODict kw)]
    /\ dict_wf kw.
Proof.
  induction 1 as [kwargs0 | self name v self' _ [kw [Hkw Hwf]] Hset].
  - exists (PyRatGame.merged_kwargs kwargs0). split; [reflexivity|].
    apply dict_update_wf. unfold dict_wf. simpl.
    repeat constructor; simpl; intuition discriminate.
  - unfold PyRatGame.__setattr__, PyRatGame.getattr_kwargs in Hset.
    rewrite Hkw in Hset. simpl in Hset. injection Hset as <-.
    exists (dict_set String.eqb name v kw).
    split; [reflexivity | now apply dict_set_wf].
Qed.

(** X6. The configuration never holds an option twice: the dictionary of
    a constructed driver has no repeated key, and writing a combination
    over it, with or without linking, keeps it so. *)
Theorem configuration_keys_unique (self : PyRatGame.instance) :
  PyRatGame.constructed self ->
  exists kw,
    PyRatGame.instance_dict self = [("kwargs"%string, PyRatGame.ODict kw)]
    /\ dict_wf kw
    /\ forall link params, dict_wf (set_params link params kw).
Proof.
  intros Hc. destruct (constructed_kwargs_wf self Hc) as [kw [Hkw Hwf]].
  exists kw. split; [exact Hkw|]. split; [exact Hwf|].
  intros link params. now apply set_params_wf.
Qed.

Lemma configuration_keys_unique_witness :
  exists kw,
    PyRatGame.instance_dict
      (PyRatGame.__init__ [("width", VInt 13); ("nodrawing", VBool false)])
    = [("kwargs"%string, PyRatGame.ODict kw)]
    /\ dict_wf kw
    /\ forall link params, dict_wf (set_params link params kw).
Proof.
  apply (configuration_keys_unique
           (PyRatGame.__init__ [("width", VInt 13); ("nodrawing", VBool false)])).
  apply PyRatGame.constructed_init.
Defined.

(** X7. Assigning an attribute twice leaves the driver as the second
    assignment alone would: the last value wins and no trace of the first
    remains. *)
Theorem setattr_last_wins (self : PyRatGame.instance) (name : string)
  (v1 v2 : value) :
  PyRatGame.constructed self ->
  (s1 <- PyRatGame.__setattr__ self name v1 ;; PyRatGame.__setattr__ s1 name v2)
  = PyRatGame.__setattr__ self name v2.
Proof.
  intros Hc. destruct (constructed_shape self Hc) as [kw Hkw].
  unfold PyRatGame.__setattr__ at 1 3, PyRatGame.getattr_kwargs.
  rewrite Hkw. simpl.
  unfold PyRatGame.__setattr__, PyRatGame.getattr_kwargs. simpl.
  now rewrite dict_set_twice.
Qed.

Lemma setattr_last_wins_witness :
  (s1 <- PyRatGame.__setattr__ (PyRatGame.__init__ [("width", VInt 13)])
           "rat" (VStr "AIs/lab3_bfs.py") ;;
   PyRatGame.__setattr__ s1 "rat" (VStr "AIs/lab4_dijkstra.py"))
  = PyRatGame.__setattr__ (PyRatGame.__init__ [("width", VInt 13)])
      "rat" (VStr "AIs/lab4_dijkstra.py").
Proof.
  apply (setattr_last_wins (PyRatGame.__init__ [("width", VInt 13)]) "rat"
           (VStr "AIs/lab3_bfs.py") (VStr "AIs/lab4_dijkstra.py")).
  apply PyRatGame.constructed_init.
Defined.

(** X8. The effect of an assignment on the command line: a new option adds
    its tokens at the end; an option already set keeps its place, its
    tokens replaced by those of the new value, the rest unchanged. *)
Theorem setattr_cmd_line (self : PyRatGame.instance) (name : string) (v : value) :
  PyRatGame.constructed self ->
  exists kw kw',
    PyRatGame.instance_dict self = [("kwargs"%string, PyRatGame.ODict kw)]
    /\ PyRatGame.__setattr__ self name v
       = Ok {| PyRatGame.instance_dict := [("kwargs"%string, PyRatGame.ODict kw')] |}
    /\ (~ In name (keys kw) ->
        PyRatGame.cmd_line_args kw'
        = PyRatGame.cmd_line_args kw ++ flag_tokens (name, v))
    /\ (forall before old after,
           kw = before ++ (name, old) :: after ->
           PyRatGame.cmd_line_args kw'
           = ["python"; "pyrat.py"]%string ++ flat_map flag_tokens before
               ++ flag_tokens (name, v) ++ flat_map flag_tokens after).
Proof.
  intros Hc. destruct (constructed_kwargs_wf self Hc) as [kw [Hkw Hwf]].
  exists kw, (dict_set String.eqb name v kw).
  split; [exact Hkw|]. split; [|split].
  - unfold PyRatGame.__setattr__, PyRatGame.getattr_kwargs. now rewrite Hkw.
  - intros Hnew. rewrite (dict_set_fresh String.eqb string_eqb_spec name v kw Hnew).
    unfold PyRatGame.cmd_line_args. rewrite !cmd_line_args_loop.
    rewrite flat_map_app. cbn [flat_map]. now rewrite app_nil_r, app_assoc.
  - intros before old after ->.
    assert (Hb : ~ In name (keys before)).
    { unfold dict_wf, keys in Hwf. rewrite map_app in Hwf. simpl in Hwf.
      apply NoDup_remove_2 in Hwf. intros H. apply Hwf, in_or_app. now left. }
    rewrite (dict_set_replace name v old before after Hb).
    unfold PyRatGame.cmd_line_args. rewrite cmd_line_args_loop.
    rewrite flat_map_app. reflexivity.
Qed.

Lemma setattr_cmd_line_witness :
  exists kw kw',
    PyRatGame.instance_dict (PyRatGame.__init__ [("width", VInt 13)])
    = [("kwargs"%string, PyRatGame.ODict kw)]
    /\ PyRatGame.__setattr__ (PyRatGame.__init__ [("width", VInt 13)])
         "nodrawing" (VBool false)
       = Ok {| PyRatGame.instance_dict := [("kwargs"%string, PyRatGame.ODict kw')] |}
    /\ (~ In "nodrawing"%string (keys kw) ->
        PyRatGame.cmd_line_args kw'
        = PyRatGame.cmd_line_args kw ++ flag_tokens ("nodrawing"%string, VBool false))
    /\ (forall before old after,
           kw = before ++ ("nodrawing"%string, old) :: after ->
           PyRatGame.cmd_line_args kw'
           = ["python"; "pyrat.py"]%string ++ flat_map flag_tokens before
               ++ flag_tokens ("nodrawing"%string, VBool false)
               ++ flat_map flag_tokens after).
Proof.
  apply (setattr_cmd_line (PyRatGame.__init__ [("width", VInt 13)])
           "nodrawing" (VBool false)).
  apply PyRatGame.constructed_init.
Defined.

(** ** Extraction: what a returned path is, and printing then extracting *)

Lemma lines_no_newline (s : string) :
  Forall (fun l => no_newline l = true) (lines s).
Proof.
  induction s as [|c s IH]; [repeat constructor|].
  rewrite (lines_cons s) in IH. apply Forall_cons_iff in IH. destruct IH as [Hl Hls].
  rewrite (lines_cons (String c s)), first_line_String, tl_lines_String.
  destruct (Ascii.eqb c nl) eqn:E.
  - constructor; [reflexivity|]. rewrite (lines_cons s). now constructor.
  - constructor; [|exact Hls]. simpl. now rewrite E.
Qed.

Lemma no_newline_app (a b : string) :
  no_newline (a ++ b) = no_newline a && no_newline b.
Proof.
  induction a as [|c a IH]; simpl; [reflexivity|].
  now rewrite IH, andb_assoc.
Qed.

Lemma first_path_Some (ls : list string) (p : string) :
  first_path ls = Some p -> exists l, In l ls /\ line_path l = Some p.
Proof.
  induction ls as [|x ls IH]; simpl; [discriminate|].
  destruct (line_path x) as [p'|] eqn:Hx.
  - intros [= ->]. exists x. split; [now left | exact Hx].
  - intros H. destruct (IH H) as [l [Hl Hp]]. exists l. split; [now right | exact Hp].
Qed.

Lemma first_path_None (ls : list string) :
  first_path ls = None -> forall l, In l ls -> line_path l = None.
Proof.
  induction ls as [|x ls IH]; simpl; [intros _ l []|].
  destruct (line_path x) as [p'|] eqn:Hx; [discriminate|].
  intros H l [<-|Hl]; [exact Hx | now apply IH].
Qed.

Lemma first_path_app (l1 l2 : list string) :
  first_path (l1 ++ l2)
  = match first_path l1 with Some p => Some p | None => first_path l2 end.
Proof.
  induction l1 as [|x l1 IH]; simpl; [reflexivity|].
  now destruct (line_path x).
Qed.

Lemma lines_app_nl (a b : string) :
  lines (a ++ String nl b) = lines a ++ lines b.
Proof.
  induction a as [|c a IH].
  - reflexivity.
  - change (String c a ++ String nl b)%string with (String c (a ++ String nl b)).
    rewrite (lines_cons (String c a)), (lines_cons (String c (a ++ String nl b))).
    rewrite !first_line_String, !tl_lines_String.
    unfold first_line. rewrite IH.
    destruct (Ascii.eqb c nl); [reflexivity|].
    rewrite (lines_cons a). reflexivity.
Qed.

Lemma first_line_app_eol (a b : string) :
  no_newline a = true -> at_eol b = true -> first_line (a ++ b) = a.
Proof.
  intros Ha Hb. induction a as [|c a IH].
  - destruct b as [|x b]; [reflexivity|].
    simpl in *. rewrite first_line_String. now rewrite Hb.
  - simpl in Ha. apply andb_true_iff in Ha. destruct Ha as [Hc Ha].
    apply negb_true_iff in Hc.
    change (String c a ++ b)%string with (String c (a ++ b)).
    rewrite first_line_String, Hc. now rewrite IH.
Qed.

(** X9. A path the extraction returns is one the output announces: some
    line of the output reads the fixed text followed by exactly that path,
    the path ends in [.csv] and holds no newline. *)
Theorem extract_csv_path_sound (stdout p : string) :
  PyRatGame._extract_csv_path stdout = Ok p ->
  In ("Stats can be found at: " ++ p)%string (lines stdout)
  /\ (exists q, p = (q ++ ".csv")%string)
  /\ no_newline p = true.
Proof.
  unfold PyRatGame._extract_csv_path. rewrite search_lines.
  destruct (first_path (lines stdout)) as [p'|] eqn:E; [|discriminate].
  intros [= ->]. apply first_path_Some in E. destruct E as [l [Hl Hp]].
  apply line_path_iff in Hp. destruct Hp as [-> Hq].
  split; [exact Hl|]. split; [exact Hq|].
  pose proof (lines_no_newline stdout) as Hall.
  rewrite Forall_forall in Hall. specialize (Hall _ Hl).
  rewrite no_newline_app in Hall. now apply andb_true_iff in Hall.
Qed.

Lemma extract_csv_path_sound_witness :
  In ("Stats can be found at: " ++ "/tmp/run1.csv")%string (lines example_stdout)
  /\ (exists q, "/tmp/run1.csv"%string = (q ++ ".csv")%string)
  /\ no_newline "/tmp/run1.csv" = true.
Proof.
  apply (extract_csv_path_sound example_stdout "/tmp/run1.csv").
  reflexivity.
Defined.

(** X10. The extraction raises nothing but the missing-attribute error,
    and only when no line of the output reads the fixed text followed by a
    path ending in [.csv]. *)
Theorem extract_csv_path_raises (stdout : string) (e : exn) :
  PyRatGame._extract_csv_path stdout = Raise e ->
  e = AttributeError
  /\ forall q,
      ~ In ("Stats can be found at: " ++ q ++ ".csv")%string (lines stdout).
Proof.
  unfold PyRatGame._extract_csv_path. rewrite search_lines.
  destruct (first_path (lines stdout)) as [p'|] eqn:E; [discriminate|].
  intros [= <-]. split; [reflexivity|].
  intros q Hin. pose proof (first_path_None _ E _ Hin) as Hnone.
  assert (Hsome : line_path ("Stats can be found at: " ++ q ++ ".csv")
                  = Some (q ++ ".csv")%string).
  { apply line_path_iff. split; [reflexivity | now exists q]. }
  congruence.
Qed.

Lemma extract_csv_path_raises_witness :
  AttributeError = AttributeError
  /\ forall q,
      ~ In ("Stats can be found at: " ++ q ++ ".csv")%string
           (lines " Stats can be found at: indented.csv").
Proof.
  apply (extract_csv_path_raises " Stats can be found at: indented.csv"
           AttributeError).
  reflexivity.
Defined.

(** X11. Printing then extracting: when the output is any text none of
    whose lines announces a path, then on a line of its own the fixed text
    followed by a path without newline ending in [.csv], then anything
    after the end of that line, the extraction returns that path; the same
    holds when the announcing line comes first. *)
Theorem extract_csv_path_round_trip (before p rest : string) :
  (forall l, In l (lines before) -> line_path l = None) ->
  no_newline p = true ->
  ends_with ".csv" p = true ->
  at_eol rest = true ->
  PyRatGame._extract_csv_path
    (before ++ String nl ("Stats can be found at: " ++ p ++ rest))
  = Ok p
  /\ PyRatGame._extract_csv_path ("Stats can be found at: " ++ p ++ rest) = Ok p.
Proof.
  intros Hbefore Hp Hcsv Hrest.
  assert (Hline : first_path (lines ("Stats can be found at: " ++ p ++ rest))
                  = Some p).
  { rewrite lines_cons. cbn [first_path].
    replace ("Stats can be found at: " ++ p ++ rest)%string
      with (("Stats can be found at: " ++ p) ++ rest)%string
      by apply string_app_assoc.
    rewrite first_line_app_eol;
      [| rewrite no_newline_app, Hp; reflexivity | exact Hrest].
    replace (line_path ("Stats can be found at: " ++ p)) with (Some p);
      [reflexivity|].
    symmetry. apply line_path_iff. split; [reflexivity|].
    now apply ends_with_iff. }
  unfold PyRatGame._extract_csv_path. rewrite !search_lines.
  rewrite lines_app_nl, first_path_app, (first_path_absent _ Hbefore), Hline.
  now split.
Qed.

Lemma extract_csv_path_round_trip_witness :
  PyRatGame._extract_csv_path
    ("Loading maze" ++ String nl
       ("Stats can be found at: " ++ "saves/a.csv.csv" ++ String nl "bye"))
  = Ok "saves/a.csv.csv"%string
  /\ PyRatGame._extract_csv_path
       ("Stats can be found at: " ++ "saves/a.csv.csv" ++ String nl "bye")
     = Ok "saves/a.csv.csv"%string.
Proof.
  apply (extract_csv_path_round_trip "Loading maze" "saves/a.csv.csv"
           (String nl "bye")).
  - intros l [<-|[]]. reflexivity.
  - reflexivity.
  - reflexivity.
  - reflexivity.
Defined.

(** ** The sweep: which runs are made, with which configuration *)

Lemma last_cons_default {A : Type} (l : list A) :
  forall x d, last (x :: l) d = last l x.
Proof.
  induction l as [|y l IH]; intros x d; [reflexivity|].
  change (last (x :: y :: l) d) with (last (y :: l) d).
  now rewrite !IH.
Qed.

Lemma configs_length (link : bool) (combos : list (dict string value))
  (kw : dict string value) :
  List.length (configs link combos kw) = List.length combos.
Proof.
  revert kw. induction combos as [|c combos IH]; intros kw; simpl; [reflexivity|].
  now rewrite IH.
Qed.

Section SweepRuns.
Variable num : Type.
Variable mean_of : list num -> num.
Variable subprocess_run : history -> list string -> result string.
Variable read_csv : history -> string -> result (dataset num).

Local Abbreviation step_w := (sweep_step num mean_of subprocess_run read_csv).
Local Abbreviation loop_w := (sweep_loop num mean_of subprocess_run read_csv).

Lemma sweep_step_state (link : bool) (params : dict string value)
  (results : dict (list value) (series num)) (st st2 : state)
  (r : result (dict (list value) (series num))) :
  step_w link params results st = (r, st2) ->
  let kw := set_params link params (kwargs st) in
  kwargs st2 = kw
  /\ (log st2 = log st ++ [PyRatGame.cmd_line_args kw]
      \/ (log st2 = log st /\ exists e, r = Raise e)).
Proof.
  unfold sweep_step.
  destruct (run num subprocess_run read_csv
              (set_params link params (kwargs st)) (log st)) as [r0 h] eqn:Hrun.
  intros [= <- <-]. simpl. split; [reflexivity|].
  destruct (run_log _ _ _ _ _ _ _ Hrun) as [->|[-> [e ->]]]; [now left|].
  right. split; [reflexivity | now exists e].
Qed.

Lemma sweep_loop_log_ok (link : bool) (combos : list (dict string value)) :
  forall (results res2 : dict (list value) (series num)) (st st2 : state),
    loop_w link combos results st = (Ok res2, st2) ->
    log st2
    = log st ++ map PyRatGame.cmd_line_args (configs link combos (kwargs st))
    /\ kwargs st2 = last (configs link combos (kwargs st)) (kwargs st).
Proof.
  induction combos as [|c combos IH]; intros results res2 st st2.
  - simpl. intros [= _ <-]. now rewrite app_nil_r.
  - cbn [sweep_loop].
    destruct (step_w link c results st) as [[res1|e] st1] eqn:Hstep; [|discriminate].
    intros Hloop. apply sweep_step_state in Hstep. cbv zeta in Hstep.
    destruct Hstep as [Hkw [Hlog|[_ [e He]]]]; [|discriminate].
    destruct (IH _ _ _ _ Hloop) as [Hl2 Hk2].
    rewrite Hkw in Hl2, Hk2. rewrite Hlog in Hl2.
    cbn [configs map]. rewrite Hl2, <- app_assoc. split; [reflexivity|].
    rewrite Hk2. symmetry. apply last_cons_default.
Qed.

Lemma sweep_loop_log_raise (link : bool) (combos : list (dict string value)) :
  forall (results : dict (list value) (series num)) (st st2 : state) (e : exn),
    loop_w link combos results st = (Raise e, st2) ->
    exists done c rest,
      combos = done ++ c :: rest
      /\ (log st2
          = log st ++ map PyRatGame.cmd_line_args (configs link done (kwargs st))
          \/ log st2
             = log st ++ map PyRatGame.cmd_line_args
                           (configs link (done ++ [c]) (kwargs st))).
Proof.
  induction combos as [|c combos IH]; intros results st st2 e; [discriminate|].
  cbn [sweep_loop].
  destruct (step_w link c results st) as [[res1|e1] st1] eqn:Hstep.
  - intros Hloop. apply sweep_step_state in Hstep. cbv zeta in Hstep.
    destruct Hstep as [Hkw [Hlog|[_ [e' He']]]]; [|discriminate].
    destruct (IH _ _ _ _ Hloop) as (done & c' & rest & -> & Hl).
    exists (c :: done), c', rest. split; [reflexivity|].
    rewrite Hkw, Hlog, <- !app_assoc in Hl. exact Hl.
  - intros [= _ <-]. apply sweep_step_state in Hstep. cbv zeta in Hstep.
    destruct Hstep as [_ [Hlog|[Hlog _]]].
    + exists [], c, combos. split; [reflexivity|]. right. exact Hlog.
    + exists [], c, combos. split; [reflexivity|]. left.
      rewrite Hlog. simpl. now rewrite app_nil_r.
Qed.
End SweepRuns.

(** X12. A sweep that returns a table has launched the game exactly once
    per combination, in the order of the combinations; the command line of
    each run renders the configuration obtained by writing that combination
    over the configuration the previous run left, starting from the fixed
    parameters over the defaults; and the driver ends with the last of
    these configurations. *)
Theorem sweep_runs_once_per_combination (num : Type) (mean_of : list num -> num)
  (subprocess_run : history -> list string -> result string)
  (read_csv : history -> string -> result (dataset num))
  (fixed_params : dict string value) (grid_params : dict string (list value))
  (link_height_width : bool) (tbl : table num) (st : state) :
  pyrat_multiruns num mean_of subprocess_run read_csv
    fixed_params grid_params link_height_width = (Ok tbl, st) ->
  let runs := configs link_height_width (dict_product grid_params)
                (PyRatGame.merged_kwargs fixed_params) in
  log st = map PyRatGame.cmd_line_args runs
  /\ List.length (log st) = List.length (dict_product grid_params)
  /\ kwargs st = last runs (PyRatGame.merged_kwargs fixed_params).
Proof.
  unfold pyrat_multiruns.
  destruct (sweep_loop num mean_of subprocess_run read_csv link_height_width
              (dict_product grid_params) []
              {| kwargs := PyRatGame.merged_kwargs fixed_params; log := [] |})
    as [[results|e] st1] eqn:Hloop; simpl; [|discriminate].
  intros [= _ <-]. apply sweep_loop_log_ok in Hloop. simpl in Hloop.
  destruct Hloop as [Hlog Hkw]. split; [exact Hlog|]. split; [|exact Hkw].
  now rewrite Hlog, length_map, configs_length.
Qed.

Lemma sweep_runs_once_per_combination_witness :
  log (snd (example_sweep example_grid))
  = map PyRatGame.cmd_line_args
      (configs true (dict_product example_grid)
         (PyRatGame.merged_kwargs [("pieces", VInt 1)]))
  /\ List.length (log (snd (example_sweep example_grid)))
     = List.length (dict_product example_grid)
  /\ kwargs (snd (example_sweep example_grid))
     = last (configs true (dict_product example_grid)
               (PyRatGame.merged_kwargs [("pieces", VInt 1)]))
         (PyRatGame.merged_kwargs [("pieces", VInt 1)]).
Proof.
  apply (sweep_runs_once_per_combination Z example_mean_of
           (example_world_stdout announce) example_world_csv
           [("pieces", VInt 1)] example_grid true
           (table_of (example_sweep example_grid))
           (snd (example_sweep example_grid))).
  vm_compute. reflexivity.
Defined.

Section SweepFailure.
Variable num : Type.
Variable mean_of : list num -> num.
Variable subprocess_run : history -> list string -> result string.
Variable read_csv : history -> string -> result (dataset num).

(** A loop that raises has run a prefix of the combinations to the end and
    raised in the step of the next one, whose state is the final state. *)
Lemma sweep_loop_raise_split (link : bool) (combos : list (dict string value)) :
  forall (results : dict (list value) (series num)) (st st2 : state) (e : exn),
    sweep_loop num mean_of subprocess_run read_csv link combos results st
    = (Raise e, st2) ->
    exists done c rest res1 st1,
      combos = done ++ c :: rest
      /\ sweep_loop num mean_of subprocess_run read_csv link done results st
         = (Ok res1, st1)
      /\ sweep_step num mean_of subprocess_run read_csv link c res1 st1
         = (Raise e, st2).
Proof.
  induction combos as [|c combos IH]; intros results st st2 e; [discriminate|].
  cbn [sweep_loop].
  destruct (sweep_step num mean_of subprocess_run read_csv link c results st)
    as [[res1|e1] st1] eqn:Hstep.
  - intros Hloop.
    destruct (IH _ _ _ _ Hloop) as (done & c' & rest & res2 & st3 & -> & Hd & Hc).
    exists (c :: done), c', rest, res2, st3. split; [reflexivity|].
    split; [|exact Hc]. cbn [sweep_loop]. now rewrite Hstep.
  - intros [= <- <-]. exists [], c, combos, results, st.
    split; [reflexivity|]. split; [reflexivity | exact Hstep].
Qed.
End SweepFailure.

(** X13. A sweep that raises has either stopped at the first failing
    combination or failed to label the frame.  In the first case the
    combinations before the failing one have all been run to the end, one
    invocation each in order; the step of the failing combination raised
    the sweep's error and left the sweep's final state, so at most that
    combination's own run was added and the game was never launched for a
    later combination.  In the second case every combination was run, one
    invocation each, and the error is [ValueError]: the index names do not
    fit the levels of the frame's index. *)
Theorem sweep_stops_at_failure (num : Type) (mean_of : list num -> num)
  (subprocess_run : history -> list string -> result string)
  (read_csv : history -> string -> result (dataset num))
  (fixed_params : dict string value) (grid_params : dict string (list value))
  (link_height_width : bool) (e : exn) (st : state) :
  pyrat_multiruns num mean_of subprocess_run read_csv
    fixed_params grid_params link_height_width = (Raise e, st) ->
  (exists done c rest res1 st1,
      dict_product grid_params = done ++ c :: rest
      /\ sweep_loop num mean_of subprocess_run read_csv link_height_width
           done []
           {| kwargs := PyRatGame.merged_kwargs fixed_params; log := [] |}
         = (Ok res1, st1)
      /\ sweep_step num mean_of subprocess_run read_csv link_height_width
           c res1 st1
         = (Raise e, st)
      /\ log st1
         = map PyRatGame.cmd_line_args
             (configs link_height_width done
                (PyRatGame.merged_kwargs fixed_params))
      /\ (log st = log st1
          \/ log st
             = log st1
                 ++ [PyRatGame.cmd_line_args
                       (set_params link_height_width c (kwargs st1))]))
  \/ (exists results,
         sweep_loop num mean_of subprocess_run read_csv link_height_width
           (dict_product grid_params) []
           {| kwargs := PyRatGame.merged_kwargs fixed_params; log := [] |}
         = (Ok results, st)
         /\ e = ValueError
         /\ List.length (keys grid_params) <> index_levels results
         /\ log st
            = map PyRatGame.cmd_line_args
                (configs link_height_width (dict_product grid_params)
                   (PyRatGame.merged_kwargs fixed_params))).
Proof.
  unfold pyrat_multiruns.
  destruct (sweep_loop num mean_of subprocess_run read_csv link_height_width
              (dict_product grid_params) []
              {| kwargs := PyRatGame.merged_kwargs fixed_params; log := [] |})
    as [[results|e1] st1] eqn:Hloop; cbn [bind].
  - unfold frame_of_results.
    destruct (Nat.eqb (List.length (keys grid_params)) (index_levels results))
      eqn:Elev; [discriminate|].
    intros [= <- <-]. right. exists results.
    split; [reflexivity|]. split; [reflexivity|].
    split; [now apply Nat.eqb_neq|].
    apply sweep_loop_log_ok in Hloop. exact (proj1 Hloop).
  - intros [= <- <-]. left.
    apply sweep_loop_raise_split in Hloop.
    destruct Hloop as (done & c & rest & res1 & st2 & Hsplit & Hdone & Hstep).
    exists done, c, rest, res1, st2.
    split; [exact Hsplit|]. split; [exact Hdone|]. split; [exact Hstep|].
    pose proof (sweep_loop_log_ok _ _ _ _ _ _ _ _ _ _ Hdone) as [Hlog _].
    split; [exact Hlog|].
    apply sweep_step_state in Hstep. cbv zeta in Hstep.
    destruct Hstep as [_ [H|[H _]]]; [now right | now left].
Qed.

Lemma sweep_stops_at_failure_witness :
  (exists done c rest res1 st1,
      dict_product text_agent_grid = done ++ c :: rest
      /\ sweep_loop Z example_mean_of (example_world_stdout announce)
           example_world_csv true done []
           {| kwargs := PyRatGame.merged_kwargs [("pieces", VInt 1)]; log := [] |}
         = (Ok res1, st1)
      /\ sweep_step Z example_mean_of (example_world_stdout announce)
           example_world_csv true c res1 st1
         = (Raise AttributeError, snd (example_sweep text_agent_grid))
      /\ log st1
         = map PyRatGame.cmd_line_args
             (configs true done (PyRatGame.merged_kwargs [("pieces", VInt 1)]))
      /\ (log (snd (example_sweep text_agent_grid)) = log st1
          \/ log (snd (example_sweep text_agent_grid))
             = log st1
                 ++ [PyRatGame.cmd_line_args (set_params true c (kwargs st1))]))
  \/ (exists results,
         sweep_loop Z example_mean_of (example_world_stdout announce)
           example_world_csv true (dict_product text_agent_grid) []
           {| kwargs := PyRatGame.merged_kwargs [("pieces", VInt 1)]; log := [] |}
         = (Ok results, snd (example_sweep text_agent_grid))
         /\ AttributeError = ValueError
         /\ List.length (keys text_agent_grid) <> index_levels results
         /\ log (snd (example_sweep text_agent_grid))
            = map PyRatGame.cmd_line_args
                (configs true (dict_product text_agent_grid)
                   (PyRatGame.merged_kwargs [("pieces", VInt 1)]))).
Proof.
  apply (sweep_stops_at_failure Z example_mean_of
           (example_world_stdout announce) example_world_csv
           [("pieces", VInt 1)] text_agent_grid true AttributeError
           (snd (example_sweep text_agent_grid))).
  vm_compute. reflexivity.
Defined.

(** ** The sweep: what a run's configuration holds *)

Lemma set_param_get_other (link : bool) (kw : dict string value)
  (pname k : string) (v : value) :
  pname <> k ->
  link = false \/ (k <> "width"%string /\ k <> "height"%string) ->
  dict_get String.eqb k (set_param link kw (pname, v)) = dict_get String.eqb k kw.
Proof.
  intros Hne Hl. apply String.eqb_neq in Hne.
  destruct Hl as [->|[Hw Hh]].
  - simpl. now rewrite kwargs_get_set, Hne.
  - assert (Ew : String.eqb "width" k = false)
      by (apply String.eqb_neq; congruence).
    assert (Eh : String.eqb "height" k = false)
      by (apply String.eqb_neq; congruence).
    unfold set_param.
    destruct (link && String.eqb pname "width"),
             (link && String.eqb pname "height");
      rewrite ?kwargs_get_set, ?Ew, ?Eh, ?Hne; reflexivity.
Qed.

Lemma set_params_get_other (link : bool) (params : dict string value) (k : string) :
  ~ In k (keys params) ->
  link = false \/ (k <> "width"%string /\ k <> "height"%string) ->
  forall kw,
    dict_get String.eqb k (set_params link params kw) = dict_get String.eqb k kw.
Proof.
  intros Hk Hl. unfold set_params.
  induction params as [|[pname v] params IH]; intros kw; [reflexivity|].
  cbn [fold_left]. rewrite IH.
  - apply set_param_get_other; [|exact Hl]. intros ->. apply Hk. now left.
  - intros H. apply Hk. now right.
Qed.

(** X14. With linking, the last of the entries named ["width"] or
    ["height"] in a combination decides both: the configuration of the run
    has width and height equal to its value, so when both are swept the
    value of the one that comes first in the grid is discarded. *)
Theorem link_last_dimension_wins (before after kw : dict string value)
  (k : string) (v : value) :
  k = "width"%string \/ k = "height"%string ->
  (forall pname, In pname (keys after) ->
                 pname <> "width"%string /\ pname <> "height"%string) ->
  squared (set_params true (before ++ (k, v) :: after) kw) v.
Proof.
  intros Hk Hfree. unfold set_params. rewrite fold_left_app. cbn [fold_left].
  set (kw1 := fold_left (set_param true) before kw).
  destruct (set_param_squared kw1 k v Hk) as [Hw Hh].
  fold (set_params true after (set_param true kw1 (k, v))).
  unfold squared. rewrite !set_params_untouched; auto.
  - intros H. now destruct (Hfree _ H).
  - intros H. now destruct (Hfree _ H).
Qed.

Lemma link_last_dimension_wins_witness :
  squared
    (set_params true
       ([("width", VInt 5)] ++ ("height"%string, VInt 7) :: [("pieces", VInt 1)])
       (PyRatGame.merged_kwargs []))
    (VInt 7).
Proof.
  apply (link_last_dimension_wins [("width", VInt 5)] [("pieces", VInt 1)]
           (PyRatGame.merged_kwargs []) "height" (VInt 7)).
  - now right.
  - intros pname [<-|[]]. split; discriminate.
Defined.

(** X15. A run is configured with the combination's own values: after a
    combination is written, each of its entries is found in the
    configuration under its name with its value, provided linking is off
    or the name is neither ["width"] nor ["height"]. *)
Theorem swept_value_configured (link : bool) (params kw : dict string value)
  (k : string) (v : value) :
  dict_wf params ->
  In (k, v) params ->
  link = false \/ (k <> "width"%string /\ k <> "height"%string) ->
  dict_get String.eqb k (set_params link params kw) = Some v.
Proof.
  intros Hwf Hin Hl.
  destruct (in_split _ _ Hin) as (before & after & ->).
  assert (Hafter : ~ In k (keys after)).
  { unfold dict_wf, keys in Hwf. rewrite map_app in Hwf. simpl in Hwf.
    apply NoDup_remove_2 in Hwf. intros H. apply Hwf, in_or_app. now right. }
  unfold set_params. rewrite fold_left_app. cbn [fold_left].
  fold (set_params link after
          (set_param link (fold_left (set_param link) before kw) (k, v))).
  rewrite (set_params_get_other link after k Hafter Hl).
  rewrite set_param_unlinked by exact Hl.
  rewrite kwargs_get_set. now rewrite String.eqb_refl.
Qed.

Lemma swept_value_configured_witness :
  dict_get String.eqb "density"
    (set_params true [("width", VInt 5); ("density", VInt 2)]
       (PyRatGame.merged_kwargs [("density", VInt 9)]))
  = Some (VInt 2).
Proof.
  apply swept_value_configured.
  - unfold dict_wf. simpl. repeat constructor; simpl; intuition discriminate.
  - simpl. right. left. reflexivity.
  - right. split; discriminate.
Defined.

Lemma configs_get_other (link : bool) (k : string)
  (combos : list (dict string value)) :
  (forall params, In params combos -> ~ In k (keys params)) ->
  link = false \/ (k <> "width"%string /\ k <> "height"%string) ->
  forall kw,
    Forall (fun cfg => dict_get String.eqb k cfg = dict_get String.eqb k kw)
      (configs link combos kw).
Proof.
  intros Hk Hl. induction combos as [|c combos IH]; intros kw; [constructor|].
  cbn [configs].
  assert (Hc : dict_get String.eqb k (set_params link c kw) = dict_get String.eqb k kw).
  { apply set_params_get_other; [apply Hk; now left | exact Hl]. }
  constructor; [exact Hc|].
  rewrite <- Hc. apply IH. intros params Hp. apply Hk. now right.
Qed.

(** X16. An option the grid does not name keeps, in the configuration of
    every run of the sweep, the value the driver was built with (the fixed
    parameter, or the default), provided linking is off or the option is
    neither ["width"] nor ["height"]. *)
Theorem fixed_params_persist (link : bool) (fixed_params : dict string value)
  (grid_params : dict string (list value)) (k : string) :
  dict_wf grid_params ->
  ~ In k (keys grid_params) ->
  link = false \/ (k <> "width"%string /\ k <> "height"%string) ->
  Forall (fun cfg =>
            dict_get String.eqb k cfg
            = dict_get String.eqb k (PyRatGame.merged_kwargs fixed_params))
    (configs link (dict_product grid_params)
       (PyRatGame.merged_kwargs fixed_params)).
Proof.
  intros Hwf Hk Hl. apply configs_get_other; [|exact Hl].
  intros params Hin. rewrite (dict_product_cartesian _ Hwf) in Hin.
  apply cartesian_In in Hin. destruct Hin as [Hkeys _]. now rewrite Hkeys.
Qed.

Lemma fixed_params_persist_witness :
  Forall (fun cfg =>
            dict_get String.eqb "pieces" cfg
            = dict_get String.eqb "pieces"
                (PyRatGame.merged_kwargs [("pieces", VInt 1)]))
    (configs true (dict_product example_grid)
       (PyRatGame.merged_kwargs [("pieces", VInt 1)])).
Proof.
  apply fixed_params_persist.
  - exact example_grid_wf.
  - simpl. intuition discriminate.
  - right. split; discriminate.
Defined.

Lemma Forall2_In_r {A B : Type} (R : A -> B -> Prop) (l : list A) (l' : list B)
  (b : B) :
  Forall2 R l l' -> In b l' -> exists a, In a l /\ R a b.
Proof.
  induction 1 as [|a0 b0 l l' Hab _ IH]; intros Hin; [destruct Hin|].
  destruct Hin as [<-|Hin].
  - exists a0. split; [now left | exact Hab].
  - destruct (IH Hin) as [a [Ha Hr]]. exists a. split; [now right | exact Hr].
Qed.

(** X17. In the table of a sweep every row label has one component per
    index name, that is per grid key. *)
Theorem sweep_label_arity (num : Type) (mean_of : list num -> num)
  (subprocess_run : history -> list string -> result string)
  (read_csv : history -> string -> result (dataset num))
  (fixed_params : dict string value) (grid_params : dict string (list value))
  (link_height_width : bool) (tbl : table num) (st : state) :
  dict_wf grid_params ->
  pyrat_multiruns num mean_of subprocess_run read_csv
    fixed_params grid_params link_height_width = (Ok tbl, st) ->
  Forall (fun row => List.length (fst row) = List.length (index_names tbl))
    (rows tbl).
Proof.
  intros Hwf Hrun.
  destruct (pyrat_multiruns_ok _ _ _ _ _ _ _ _ _ Hrun)
    as (entries & Hreg & Hrows & Hidx).
  apply Forall_forall. intros [lbl s] Hin. simpl.
  assert (Hlbl : In lbl (keys entries)).
  { apply (distinct_In tuple_eqb). rewrite <- keys_dict_of_items, <- Hrows.
    apply (in_map fst) in Hin. exact Hin. }
  apply Forall2_registered_labels in Hreg.
  destruct (Forall2_In_r _ _ _ _ Hreg Hlbl) as [params [Hp Hr]].
  apply render_pvalues_rendered, Forall2_length in Hr.
  rewrite (dict_product_cartesian _ Hwf) in Hp. apply cartesian_In in Hp.
  destruct Hp as [Hkeys _].
  rewrite <- Hr, Hidx, <- Hkeys. unfold keys. now rewrite length_map.
Qed.

Lemma sweep_label_arity_witness :
  Forall (fun row =>
            List.length (fst row)
            = List.length (index_names (table_of (example_sweep example_grid))))
    (rows (table_of (example_sweep example_grid))).
Proof.
  apply (sweep_label_arity Z example_mean_of (example_world_stdout announce)
           example_world_csv [("pieces", VInt 1)] example_grid true
           (table_of (example_sweep example_grid))
           (snd (example_sweep example_grid))).
  - exact example_grid_wf.
  - vm_compute. reflexivity.
Defined.

(** X18. When some candidate list of the grid is empty there is no
    combination, and the sweep never launches the game: it ends with no
    invocation made and the driver's configuration as it was built. *)
Theorem empty_candidates_no_run (num : Type) (mean_of : list num -> num)
  (subprocess_run : history -> list string -> result string)
  (read_csv : history -> string -> result (dataset num))
  (fixed_params : dict string value) (grid_params : dict string (list value))
  (link_height_width : bool) :
  dict_wf grid_params ->
  In [] (values grid_params) ->
  dict_product grid_params = []
  /\ snd (pyrat_multiruns num mean_of subprocess_run read_csv
            fixed_params grid_params link_height_width)
     = {| kwargs := PyRatGame.merged_kwargs fixed_params; log := [] |}.
Proof.
  intros Hwf Hempty.
  assert (Hnil : dict_product grid_params = [])
    by now apply dict_product_nil_iff.
  split; [exact Hnil|]. unfold pyrat_multiruns. now rewrite Hnil.
Qed.

Lemma empty_candidates_no_run_witness :
  dict_product empty_list_grid = []
  /\ snd (pyrat_multiruns Z example_mean_of (example_world_stdout announce)
            example_world_csv [("pieces", VInt 1)] empty_list_grid false)
     = {| kwargs := PyRatGame.merged_kwargs [("pieces", VInt 1)]; log := [] |}.
Proof.
  apply empty_candidates_no_run.
  - unfold dict_wf. simpl. repeat constructor; simpl; intuition discriminate.
  - simpl. right. left. reflexivity.
Defined.

(** X19. A sweep over the grid with no key makes exactly one run, with the
    configuration the driver was built with: when the game can be
    launched, the one invocation logged is that configuration's command
    line, and the configuration is unchanged. *)
Theorem empty_grid_single_run (num : Type) (mean_of : list num -> num)
  (subprocess_run : history -> list string -> result string)
  (read_csv : history -> string -> result (dataset num))
  (fixed_params : dict string value) (link_height_width : bool)
  (stdout : string) :
  subprocess_run [] (PyRatGame.cmd_line_args (PyRatGame.merged_kwargs fixed_params))
  = Ok stdout ->
  snd (pyrat_multiruns num mean_of subprocess_run read_csv
         fixed_params [] link_height_width)
  = {| kwargs := PyRatGame.merged_kwargs fixed_params;
       log := [PyRatGame.cmd_line_args (PyRatGame.merged_kwargs fixed_params)] |}.
Proof.
  intros Hrun. unfold pyrat_multiruns.
  change (dict_product (@nil (string * list value))) with [@nil (string * value)].
  cbn [sweep_loop]. unfold sweep_step, set_params. cbn [fold_left kwargs log].
  unfold run. rewrite Hrun. cbn [app].
  destruct (csv_path <- PyRatGame._extract_csv_path stdout ;;
            stats <- load_stats num read_csv
                       [PyRatGame.cmd_line_args (PyRatGame.merged_kwargs fixed_params)]
                       csv_path ;;
            Ok (csv_path, stats)) as [[csv_path stats]|e]; reflexivity.
Qed.

Lemma empty_grid_single_run_witness :
  snd (pyrat_multiruns Z example_mean_of (example_world_stdout announce)
         example_world_csv [("pieces", VInt 1)] [] true)
  = {| kwargs := PyRatGame.merged_kwargs [("pieces", VInt 1)];
       log := [PyRatGame.cmd_line_args
                 (PyRatGame.merged_kwargs [("pieces", VInt 1)])] |}.
Proof.
  apply (empty_grid_single_run Z example_mean_of (example_world_stdout announce)
           example_world_csv [("pieces", VInt 1)] true announce).
  reflexivity.
Defined.
